(** * websocketpp: the HTTP message parser (http/impl/parser.hpp)

    A shallow embedding of [websocketpp::http::parser::parser]: the header
    store, the encoding negotiation of [prepare_body], the incremental body
    decoder [process_body], and the facade operations [set_body] and
    [process_header].

    Conventions.
    - [std::string] and [char const *] buffers are [string]s (sequences of
      8-bit characters).
    - [size_t] and [unsigned long] are 64-bit (LP64); they are modelled as
      [Z] with the wrap-around written out ([wrap]).
    - A member function that mutates [*this] takes the parser and returns the
      new parser next to its C++ result.  A [lib::error_code &] out-parameter
      is threaded explicitly, because some paths leave it untouched. *)

From Stdlib Require Import ZArith Ascii String List Lia.
From Stdlib Require Import DecimalString DecimalPos DecimalN.
From stdpp Require Import base option gmap strings list.

Local Open Scope Z_scope.

#[local] Arguments String.append !_ _ / : simpl nomatch.

(** ** Characters and strings *)

Definition CR : ascii := "013"%char.
Definition LF : ascii := "010"%char.

Definition str1 (c : ascii) : string := String c EmptyString.

(** [std::string::size], as a [size_t]. *)
Definition size (s : string) : Z := Z.of_nat (String.length s).

(** [std::string(first, first + n)] and the tail that starts at offset [n]. *)
Fixpoint take (n : nat) (s : string) : string :=
  match n, s with
  | S n', String c t => String c (take n' t)
  | _, _ => EmptyString
  end.

Fixpoint drop (n : nat) (s : string) : string :=
  match n, s with
  | S n', String _ t => drop n' t
  | _, _ => s
  end.

(** [needle] is a prefix of [hay]. *)
Fixpoint starts_with (needle hay : string) : bool :=
  match needle, hay with
  | EmptyString, _ => true
  | String a n', String b h' => if Ascii.eqb a b then starts_with n' h' else false
  | String _ _, EmptyString => false
  end.

(** [std::search(first, last, s_first, s_last) - first]: the offset of the
    first occurrence of [needle], or the length of [hay] (the [last]
    iterator) when there is none. *)
Fixpoint search (hay needle : string) : nat :=
  if starts_with needle hay then 0%nat
  else match hay with
       | EmptyString => 0%nat
       | String _ t => S (search t needle)
       end.

(** [std::find_if(first, last, p) - first]. *)
Fixpoint find_if (p : ascii -> bool) (s : string) : nat :=
  match s with
  | EmptyString => 0%nat
  | String c t => if p c then 0%nat else S (find_if p t)
  end.

(** ** Unsigned machine integers *)

Definition SIZE_BITS : Z := 64.
Definition ULONG_MAX : Z := 2 ^ SIZE_BITS - 1.

(** Reduction of an arithmetic result to [size_t]. *)
Definition wrap (z : Z) : Z := z mod 2 ^ SIZE_BITS.

(** *** [std::strtoul]

    The C library function, for a base between 2 and 36 other than the
    auto-detecting base 0: skip white space, read an optional sign, for base
    16 an optional [0x] prefix, then the longest run of digits of the base.
    The result is the value (saturated to [ULONG_MAX] on overflow, negated in
    the unsigned type after a minus sign) and the offset of [*endptr] from
    the start of the string; with no digits at all, the value is 0 and the
    offset is 0. *)

Definition isspace (c : ascii) : bool :=
  let n := N_of_ascii c in
  ((9 <=? n) && (n <=? 13) || (n =? 32))%N.

Definition digit_value (c : ascii) : option Z :=
  let n := Z.of_N (N_of_ascii c) in
  if (48 <=? n) && (n <=? 57) then Some (n - 48)
  else if (97 <=? n) && (n <=? 122) then Some (n - 97 + 10)
  else if (65 <=? n) && (n <=? 90) then Some (n - 65 + 10)
  else None.

Definition digit_in_base (base : Z) (c : ascii) : option Z :=
  match digit_value c with
  | Some d => if d <? base then Some d else None
  | None => None
  end.

(** The digits' loop: accumulated value (unbounded) and number of characters
    read. *)
Fixpoint read_digits (base : Z) (s : string) (acc : Z) (n : nat) : Z * nat :=
  match s with
  | EmptyString => (acc, n)
  | String c t =>
      match digit_in_base base c with
      | Some d => read_digits base t (acc * base + d) (S n)
      | None => (acc, n)
      end
  end.

Fixpoint skip_space (s : string) (n : nat) : string * nat :=
  match s with
  | String c t => if isspace c then skip_space t (S n) else (s, n)
  | EmptyString => (s, n)
  end.

(** Sign: [(negative, rest, offset)]. *)
Definition read_sign (s : string) (n : nat) : bool * string * nat :=
  match s with
  | String c t =>
      if Ascii.eqb c "-"%char then (true, t, S n)
      else if Ascii.eqb c "+"%char then (false, t, S n)
      else (false, s, n)
  | EmptyString => (false, s, n)
  end.

(** The [0x] prefix of base 16 is part of the number only when a hexadecimal
    digit follows it. *)
Definition read_prefix (base : Z) (s : string) (n : nat) : string * nat :=
  match s with
  | String c0 (String cx (String d t)) =>
      if (base =? 16) && Ascii.eqb c0 "0"%char
         && (Ascii.eqb cx "x"%char || Ascii.eqb cx "X"%char)
         && (match digit_in_base base d with Some _ => true | None => false end)
      then (String d t, S (S n))
      else (s, n)
  | _ => (s, n)
  end.

Definition strtoul (s : string) (base : Z) : Z * nat :=
  let '(s1, n1) := skip_space s 0%nat in
  let '(neg, s2, n2) := read_sign s1 n1 in
  let '(s3, n3) := read_prefix base s2 n2 in
  let '(v, n4) := read_digits base s3 0 n3 in
  if (n4 =? n3)%nat then (0, 0%nat)
  else
    (if ULONG_MAX <? v then ULONG_MAX
     else if neg then wrap (- v) else v, n4).

(** Decimal output of a [size_t] through [std::stringstream]. *)
Definition to_decimal (n : Z) : string :=
  NilZero.string_of_uint (N.to_uint (Z.to_N n)).


(** ** Error codes

    The values of [http::error::value] that this file produces, and
    [success] for a default-constructed [lib::error_code]. *)

Inductive error_code : Type :=
  | success
  | invalid_format
  | invalid_header_name
  | body_too_large
  | unknown_content_encoding
  | unsupported_content_encoding
  | unknown_transfer_encoding
  | unsupported_transfer_encoding.

#[global] Instance error_code_eq_dec : EqDecision error_code.
Proof. solve_decision. Defined.

(** [if (ec)]: an error code is true when it holds an error. *)
Definition is_error (ec : error_code) : bool :=
  match ec with success => false | _ => true end.

(** ** Encodings *)

Inductive content_encoding : Type :=
  | ce_gzip | ce_compress | ce_deflate.

Inductive transfer_encoding : Type :=
  | te_gzip | te_compress | te_deflate | te_chunked.

#[global] Instance transfer_encoding_eq_dec : EqDecision transfer_encoding.
Proof. solve_decision. Defined.

(** Modelled from the spec: [content_encoding::from_string], which is
    declared outside this file.  Content encodings are drawn from the closed
    enumeration gzip, x-gzip (an alias of gzip), compress and deflate; every
    other token is unmappable. *)
Definition from_string (token : string) : option content_encoding :=
  if String.eqb token "gzip" || String.eqb token "x-gzip" then Some ce_gzip
  else if String.eqb token "compress" then Some ce_compress
  else if String.eqb token "deflate" then Some ce_deflate
  else None.

(** The chain of comparisons in the transfer-encoding loop of
    [prepare_body]. *)
Definition transfer_encoding_of (token : string) : option transfer_encoding :=
  if String.eqb token "gzip" || String.eqb token "x-gzip" then Some te_gzip
  else if String.eqb token "compress" then Some te_compress
  else if String.eqb token "deflate" then Some te_deflate
  else if String.eqb token "chunked" then Some te_chunked
  else None.

(** [std::find(v.begin(), v.end(), transfer_encoding::chunked) != v.end()]. *)
Definition has_chunked (v : list transfer_encoding) : bool :=
  bool_decide (te_chunked ∈ v).

(** ** Constants of the HTTP layer

    Modelled from the spec: the header names and the line terminator, which
    are declared outside this file. *)

Definition Header_ContentLength : string := "Content-Length".
Definition Header_ContentEncoding : string := "Content-Encoding".
Definition Header_TransferEncoding : string := "Transfer-Encoding".
Definition http_crlf : string := String CR (String LF EmptyString).
Definition empty_header : string := EmptyString.

(** Modelled from the spec: [is_not_token_char], declared outside this file.
    A token character is a letter, a digit or one of the punctuation
    characters that RFC 7230 allows in a header field name; separators,
    control characters and white space are not. *)
Definition is_token_char (c : ascii) : bool :=
  let n := N_of_ascii c in
  ((48 <=? n) && (n <=? 57) || (65 <=? n) && (n <=? 90)
   || (97 <=? n) && (n <=? 122)
   || bool_decide (n ∈ [33; 35; 36; 37; 38; 39; 42; 43; 45; 46; 94; 95; 96; 124; 126]))%N.

Definition is_not_token_char (c : ascii) : bool := negb (is_token_char c).

(** ** The header store

    Modelled from the spec: the comparator of [header_list], declared outside
    this file.  [header_list] is a [std::map] from names to values whose
    comparator ignores ASCII case: two names are the same key when their
    lower-case foldings agree.  The map is keyed by the folded name and
    keeps, next to the value, the spelling under which the key was first
    inserted. *)

Definition tolower (c : ascii) : ascii :=
  let n := N_of_ascii c in
  if ((65 <=? n) && (n <=? 90))%N then ascii_of_N (n + 32) else c.

Fixpoint fold_case (s : string) : string :=
  match s with
  | EmptyString => EmptyString
  | String c t => String (tolower c) (fold_case t)
  end.

Abbreviation header_list := (gmap string (string * string)).

(** [h.find(key)]: the value of the entry, [None] for [h.end()]. *)
Definition find (h : header_list) (key : string) : option string :=
  snd <$> h !! fold_case key.

(** [h[key]]: the value at [key], after the default insertion that
    [operator[]] makes for a missing key. *)
Definition subscript (h : header_list) (key : string) : string * string :=
  default (key, EmptyString) (h !! fold_case key).

(** [h[key] = val]. *)
Definition assign (h : header_list) (key val : string) : header_list :=
  <[fold_case key := ((subscript h key).1, val)]> h.

(** [h[key] += val]. *)
Definition append_to (h : header_list) (key val : string) : header_list :=
  <[fold_case key := ((subscript h key).1, (subscript h key).2 +:+ val)]> h.

(** [h.erase(key)]. *)
Definition erase (h : header_list) (key : string) : header_list :=
  delete (fold_case key) h.

(** ** Parameter lists *)

Abbreviation attribute_list := (gmap string string).
Abbreviation parameter_list := (list (string * attribute_list)).

(** ** The parser object

    The members that the functions of this file read and write.  The class
    itself is declared outside this file. *)

Record parser : Type := mk_parser {
  m_version : string;
  m_headers : header_list;
  m_content_encoding : list content_encoding;
  m_transfer_encoding : list transfer_encoding;
  m_body_bytes_needed : Z;
  m_body_bytes_total : Z;
  m_body_bytes_max : Z;
  m_body : string
}.

Definition with_headers (h : header_list) (p : parser) : parser :=
  mk_parser (m_version p) h (m_content_encoding p) (m_transfer_encoding p)
    (m_body_bytes_needed p) (m_body_bytes_total p) (m_body_bytes_max p) (m_body p).

Definition with_body (b : string) (p : parser) : parser :=
  mk_parser (m_version p) (m_headers p) (m_content_encoding p)
    (m_transfer_encoding p) (m_body_bytes_needed p) (m_body_bytes_total p)
    (m_body_bytes_max p) b.

Definition with_content_encoding (v : list content_encoding) (p : parser) : parser :=
  mk_parser (m_version p) (m_headers p) v (m_transfer_encoding p)
    (m_body_bytes_needed p) (m_body_bytes_total p) (m_body_bytes_max p) (m_body p).

Definition with_transfer_encoding (v : list transfer_encoding) (p : parser) : parser :=
  mk_parser (m_version p) (m_headers p) (m_content_encoding p) v
    (m_body_bytes_needed p) (m_body_bytes_total p) (m_body_bytes_max p) (m_body p).

Definition with_needed (n : Z) (p : parser) : parser :=
  mk_parser (m_version p) (m_headers p) (m_content_encoding p)
    (m_transfer_encoding p) n (m_body_bytes_total p) (m_body_bytes_max p) (m_body p).

Definition with_total (n : Z) (p : parser) : parser :=
  mk_parser (m_version p) (m_headers p) (m_content_encoding p)
    (m_transfer_encoding p) (m_body_bytes_needed p) n (m_body_bytes_max p) (m_body p).

Definition with_version (v : string) (p : parser) : parser :=
  mk_parser v (m_headers p) (m_content_encoding p) (m_transfer_encoding p)
    (m_body_bytes_needed p) (m_body_bytes_total p) (m_body_bytes_max p) (m_body p).

(** Modelled from the spec: the constructor, declared outside this file.  A
    parser is created per message with an empty header store, no encodings,
    an empty body and both counters at 0; the maximum body size is set
    before parsing begins (0 for no limit). *)
Definition new_parser (max_body_size : Z) : parser :=
  mk_parser EmptyString ∅ [] [] 0 0 max_body_size EmptyString.

(** ** Header operations *)

Definition set_version (version : string) (p : parser) : error_code * parser :=
  (success, with_version version p).

Definition get_header (p : parser) (key : string) : string :=
  match find (m_headers p) key with
  | None => empty_header
  | Some v => v
  end.

Definition invalid_name (key : string) : bool :=
  negb (find_if is_not_token_char key =? String.length key)%nat.

Definition append_header (key val : string) (p : parser) : error_code * parser :=
  if invalid_name key then (invalid_header_name, p)
  else if String.eqb (get_header p key) EmptyString
  then (success, with_headers (assign (m_headers p) key val) p)
  else (success, with_headers (append_to (m_headers p) key (", " +:+ val)) p).

Definition replace_header (key val : string) (p : parser) : error_code * parser :=
  if invalid_name key then (invalid_header_name, p)
  else (success, with_headers (assign (m_headers p) key val) p).

Definition remove_header (key : string) (p : parser) : error_code * parser :=
  if invalid_name key then (invalid_header_name, p)
  else (success, with_headers (erase (m_headers p) key) p).

Definition get_headers (p : parser) : header_list := m_headers p.

(** ** The body facade *)

Definition set_body (value : string) (p : parser) : error_code * parser :=
  if size value =? 0 then
    let '(ec, p1) := remove_header Header_ContentLength p in
    if is_error ec then (ec, p1)
    else (success, with_body EmptyString p1)
  else if negb (m_body_bytes_max p =? 0) && (m_body_bytes_max p <? size value)
  then (body_too_large, p)
  else
    let '(ec, p1) := replace_header Header_ContentLength (to_decimal (size value)) p in
    if is_error ec then (ec, p1)
    else (success, with_body value p1).

Definition consume_body (p : parser) : parser := with_body EmptyString p.

(** ** Encoding negotiation

    [extract_parameters], the parser of list-valued headers, is declared
    outside this file.  The negotiation is written over any such function:
    it takes the header value and the list to append to, and returns the
    offset of the iterator it returns together with the list.  Offset 0 (the
    [begin] iterator) is how it reports that the value is not a parameter
    list. *)

(** How far a block of [prepare_body] got: it returned from the function, or
    control falls through to the next block. *)
Inductive flow : Type :=
  | Return (r : bool) (p : parser) (ec : error_code)
  | Next (p : parser).

Definition and_then (f : flow) (k : parser -> bool * parser * error_code)
  : bool * parser * error_code :=
  match f with
  | Return r p ec => (r, p, ec)
  | Next p => k p
  end.

Notation "f >>> k" := (and_then f k) (at level 61, left associativity).

(** The loop over [ce_list]: a mapped token is pushed, the first unmapped one
    stops the loop ([false]) with the tokens before it already pushed. *)
Fixpoint content_encoding_loop (l : parameter_list) (v : list content_encoding)
  : bool * list content_encoding :=
  match l with
  | [] => (true, v)
  | param :: l' =>
      match from_string param.1 with
      | Some e => content_encoding_loop l' (v ++ [e])
      | None => (false, v)
      end
  end.

Fixpoint transfer_encoding_loop (l : parameter_list) (v : list transfer_encoding)
  : bool * list transfer_encoding :=
  match l with
  | [] => (true, v)
  | param :: l' =>
      match transfer_encoding_of param.1 with
      | Some e => transfer_encoding_loop l' (v ++ [e])
      | None => (false, v)
      end
  end.

(** The Content-Length block that ends [prepare_body]. *)
Definition content_length_block (p : parser) : bool * parser * error_code :=
  let cl_header := get_header p Header_ContentLength in
  if negb (size cl_header =? 0) then
    let '(v, e) := strtoul cl_header 10 in
    let p1 := with_total v (with_needed v p) in
    if negb (e =? String.length cl_header)%nat then (false, p1, invalid_format)
    else if negb (m_body_bytes_max p1 =? 0) && (m_body_bytes_max p1 <? m_body_bytes_total p1)
    then (false, p1, body_too_large)
    else (negb (m_body_bytes_needed p1 =? 0), p1, success)
  else (false, p, success).

Section Negotiation.

Variable extract_parameters : string -> parameter_list -> nat * parameter_list.

Definition parse_parameter_list (input : string) (out : parameter_list)
  : bool * parameter_list :=
  if size input =? 0 then (false, out)
  else
    let '(it, out') := extract_parameters input out in
    ((it =? 0)%nat, out').

Definition get_header_as_plist (p : parser) (key : string) (out : parameter_list)
  : bool * parameter_list :=
  match find (m_headers p) key with
  | None => (false, out)
  | Some v => if size v =? 0 then (false, out) else parse_parameter_list v out
  end.

Definition content_encoding_block (p : parser) : flow :=
  let '(b, ce_list) := get_header_as_plist p Header_ContentEncoding [] in
  if negb b then
    let '(ok, v) := content_encoding_loop ce_list (m_content_encoding p) in
    let p1 := with_content_encoding v p in
    if negb ok then Return false p1 unknown_content_encoding
    else if (3 <? length (m_content_encoding p1))%nat
    then Return false p1 unsupported_content_encoding
    else Next p1
  else Next p.

Definition transfer_encoding_block (p : parser) : flow :=
  let '(b, te_list) := get_header_as_plist p Header_TransferEncoding [] in
  if negb b && negb (bool_decide (te_list = [])) then
    let '(ok, v) := transfer_encoding_loop te_list (m_transfer_encoding p) in
    let p1 := with_transfer_encoding v p in
    if negb ok then Return false p1 unknown_transfer_encoding
    else if (3 <? length (m_transfer_encoding p1))%nat
    then Return false p1 unsupported_transfer_encoding
    else if has_chunked (m_transfer_encoding p1) then Return true p1 success
    else Next p1
  else Next p.

(** [ec.clear()] opens the function, so the error code that comes back does
    not depend on the one passed in. *)
Definition prepare_body (p : parser) : bool * parser * error_code :=
  content_encoding_block p >>> fun p1 =>
  transfer_encoding_block p1 >>> fun p2 =>
  content_length_block p2.

End Negotiation.

(** ** The body decoder

    [process_body] calls itself once, on the rest of the buffer after a
    chunk-size line.  [fuel] bounds the depth of that recursion; the length
    of the buffer is always enough ([process_body_fuel]). *)

Fixpoint process_body_rec (fuel : nat) (p : parser) (buf : string) (ec : error_code)
  : option (Z * parser * error_code) :=
  if size buf =? 0 then Some (0, p, ec)
  else
    match fuel with
    | O => None
    | S fuel' =>
        if has_chunked (m_transfer_encoding p) then
          if negb (m_body_bytes_needed p =? 0) then
            let processed := Z.min (m_body_bytes_needed p) (size buf) in
            let p1 := with_body (m_body p +:+ take (Z.to_nat processed) buf) p in
            let p2 := with_needed (m_body_bytes_needed p1 - processed) p1 in
            Some (processed, p2, success)
          else
            let newline := search buf http_crlf in
            if (newline =? String.length buf)%nat then Some (0, p, invalid_format)
            else
              let chunkSizeHex := take newline buf in
              let '(v, e) := strtoul chunkSizeHex 16 in
              let p1 := with_needed v p in
              let p2 := with_total (wrap (m_body_bytes_total p1 + m_body_bytes_needed p1)) p1 in
              if negb (e =? String.length chunkSizeHex)%nat
              then Some (0, p2, invalid_format)
              else if negb (m_body_bytes_max p2 =? 0)
                      && (m_body_bytes_max p2 <? m_body_bytes_total p2)
              then Some (0, p2, body_too_large)
              else if m_body_bytes_needed p2 =? 0 then Some (size buf, p2, ec)
              else
                let processed := (newline + String.length http_crlf)%nat in
                match process_body_rec fuel' p2 (drop processed buf) ec with
                | Some (n, p3, ec') => Some (wrap (Z.of_nat processed + n), p3, ec')
                | None => None
                end
        else
          let processed := Z.min (m_body_bytes_needed p) (size buf) in
          let p1 := with_body (m_body p +:+ take (Z.to_nat processed) buf) p in
          let p2 := with_needed (m_body_bytes_needed p1 - processed) p1 in
          Some (processed, p2, success)
    end.

Definition process_body (p : parser) (buf : string) (ec : error_code)
  : option (Z * parser * error_code) :=
  process_body_rec (String.length buf) p buf ec.

(** ** Header lines

    The separator between name and value and [strip_lws] are declared outside
    this file; [process_header] is written over both. *)

Section Header_lines.

Variable header_separator : string.
Variable strip_lws : string -> string.

Definition process_header (line : string) (p : parser) : error_code * parser :=
  let cursor := search line header_separator in
  if (cursor =? String.length line)%nat then (body_too_large, p)
  else
    append_header
      (strip_lws (take cursor line))
      (strip_lws (drop (cursor + String.length header_separator) line))
      p.

End Header_lines.

(** ** Serialization

    [raw_headers] walks the map from [begin()] to [end()] and writes one
    line per entry.  The order of the walk is fixed by the comparator of
    [header_list], which is declared outside this file: the function is
    written over the walk, [in_order], which gives the entries of a map, each
    the name as stored and the value, one after the other. *)

Section Serialization.

Variable in_order : header_list -> list (string * string).

Definition raw_headers (p : parser) : string :=
  fold_left
    (fun raw it => raw +:+ it.1 +:+ ": " +:+ it.2 +:+ String CR (String LF EmptyString))
    (in_order (m_headers p)) EmptyString.

End Serialization.

(** ** A list parser after the specification

    Modelled from the spec: [extract_parameters], declared outside this file.
    The grammar is [list := token (";" param)* ("," list)?], with
    [token := HTTP token chars] and
    [param := token "=" (token | quoted-string)]; linear white space may
    surround tokens and separators.  A value that reduces to the grammar as a
    whole yields its entries in order of appearance; any other value is
    reported as not being a parameter list and yields nothing. *)

Module ListGrammar.

Definition is_lws (c : ascii) : bool :=
  Ascii.eqb c " "%char || Ascii.eqb c "009"%char.

(** The longest prefix whose characters satisfy [p], and the rest. *)
Fixpoint span (p : ascii -> bool) (s : string) : string * string :=
  match s with
  | String c t =>
      if p c then let '(a, b) := span p t in (String c a, b)
      else (EmptyString, s)
  | EmptyString => (EmptyString, EmptyString)
  end.

Definition skip_lws (s : string) : string := (span is_lws s).2.

Definition is_empty (s : string) : bool :=
  match s with EmptyString => true | _ => false end.

(** The inside of a quoted string, after the opening quote: up to the
    closing quote, a backslash quoting the character after it. *)
Fixpoint quoted_tail (s : string) : option (string * string) :=
  match s with
  | EmptyString => None
  | String c t =>
      if Ascii.eqb c "034"%char then Some (EmptyString, t)
      else if Ascii.eqb c "092"%char then
        match t with
        | String d t' =>
            match quoted_tail t' with
            | Some (a, r) => Some (String d a, r)
            | None => None
            end
        | EmptyString => None
        end
      else
        match quoted_tail t with
        | Some (a, r) => Some (String c a, r)
        | None => None
        end
  end.

(** [param]: name, value and the rest of the input. *)
Definition parse_param (s : string) : option (string * string * string) :=
  let '(name, r1) := span is_token_char (skip_lws s) in
  if is_empty name then None
  else
    match skip_lws r1 with
    | String c r2 =>
        if Ascii.eqb c "="%char then
          match skip_lws r2 with
          | String q r4 =>
              if Ascii.eqb q "034"%char then
                match quoted_tail r4 with
                | Some (v, r5) => Some (name, v, r5)
                | None => None
                end
              else
                let '(v, r5) := span is_token_char (String q r4) in
                if is_empty v then None else Some (name, v, r5)
          | EmptyString => None
          end
        else None
    | EmptyString => None
    end.

(** [(";" param)*], then the input that follows. *)
Fixpoint parse_params (fuel : nat) (s : string) (attrs : attribute_list)
  : option (attribute_list * string) :=
  match skip_lws s with
  | String c r =>
      if Ascii.eqb c ";"%char then
        match fuel with
        | O => None
        | S fuel' =>
            match parse_param r with
            | Some (n, v, r') => parse_params fuel' r' (<[n:=v]> attrs)
            | None => None
            end
        end
      else Some (attrs, String c r)
  | EmptyString => Some (attrs, EmptyString)
  end.

Fixpoint parse_list (fuel : nat) (s : string) : option parameter_list :=
  match fuel with
  | O => None
  | S fuel' =>
      let '(tok, r1) := span is_token_char (skip_lws s) in
      if is_empty tok then None
      else
        match parse_params fuel' r1 ∅ with
        | None => None
        | Some (attrs, r2) =>
            match r2 with
            | EmptyString => Some [(tok, attrs)]
            | String c r3 =>
                if Ascii.eqb c ","%char then
                  match parse_list fuel' r3 with
                  | Some l => Some ((tok, attrs) :: l)
                  | None => None
                  end
                else None
            end
        end
  end.

Definition extract_parameters (input : string) (out : parameter_list)
  : nat * parameter_list :=
  match parse_list (S (String.length input)) input with
  | Some l => (String.length input, out ++ l)
  | None => (0%nat, out)
  end.

End ListGrammar.

(** ** Vocabulary of the properties *)

(** Every character of the name is a token character; some character is
    not. *)
Definition token_name (key : string) : Prop :=
  Forall (fun c => is_token_char c = true) (list_ascii_of_string key).

Definition has_non_token_char (key : string) : Prop :=
  Exists (fun c => is_token_char c = false) (list_ascii_of_string key).

(** The values a [size_t] member can hold. *)
Definition size_t_range (z : Z) : Prop := 0 <= z <= ULONG_MAX.

Definition counters_in_range (p : parser) : Prop :=
  size_t_range (m_body_bytes_needed p) /\
  size_t_range (m_body_bytes_total p) /\
  size_t_range (m_body_bytes_max p).

(** The byte budget: no limit is configured, or the counter is within it. *)
Definition within_budget (p : parser) : Prop :=
  m_body_bytes_max p = 0 \/ m_body_bytes_total p <= m_body_bytes_max p.

(** The Content-Length header agrees with the body: absent for an empty
    body, the decimal length of the body otherwise. *)
Definition content_length_consistent (p : parser) : Prop :=
  if decide (m_body p = EmptyString)
  then find (m_headers p) Header_ContentLength = None
  else find (m_headers p) Header_ContentLength = Some (to_decimal (size (m_body p))).

(** Two parsers that differ at most in their lists of encodings. *)
Definition same_message (p p' : parser) : Prop :=
  m_version p' = m_version p /\ m_headers p' = m_headers p /\
  m_body p' = m_body p /\
  m_body_bytes_needed p' = m_body_bytes_needed p /\
  m_body_bytes_total p' = m_body_bytes_total p /\
  m_body_bytes_max p' = m_body_bytes_max p.

(** The parser a block of [prepare_body] leaves behind. *)
Definition flow_parser (f : flow) : parser :=
  match f with Return _ p _ | Next p => p end.


(** Parsers used in the examples. *)
Definition with_header (key val : string) (p : parser) : parser :=
  with_headers (assign (m_headers p) key val) p.

(** The branch of [process_body] that copies body bytes: the plain framing
    and the inside of a chunk. *)
Definition copy_bytes (p : parser) (buf : string) : Z * parser * error_code :=
  let processed := Z.min (m_body_bytes_needed p) (size buf) in
  (processed,
   with_needed (m_body_bytes_needed p - processed)
     (with_body (m_body p +:+ take (Z.to_nat processed) buf) p),
   success).

(** The parser after the size line of a chunk has been read: the size in
    [bytes_needed], and added to [bytes_total]. *)
Definition chunk_started (p : parser) (chunk_size : Z) : parser :=
  with_total (wrap (m_body_bytes_total p + chunk_size)) (with_needed chunk_size p).

(** The calls a user of the parser makes, each reporting no error. *)
Inductive step
    (extract_parameters : string -> parameter_list -> nat * parameter_list)
  : parser -> parser -> Prop :=
  | step_prepare_body p r p' :
      prepare_body extract_parameters p = (r, p', success) ->
      step extract_parameters p p'
  | step_process_body p buf n p' :
      process_body p buf success = Some (n, p', success) ->
      step extract_parameters p p'
  | step_append_header p key val p' :
      append_header key val p = (success, p') -> step extract_parameters p p'
  | step_replace_header p key val p' :
      replace_header key val p = (success, p') -> step extract_parameters p p'
  | step_remove_header p key p' :
      remove_header key p = (success, p') -> step extract_parameters p p'
  | step_set_body p value p' :
      set_body value p = (success, p') -> step extract_parameters p p'
  | step_consume_body p :
      step extract_parameters p (consume_body p).

(** What holds of a parser as long as no call has reported an error. *)
Definition parser_invariant (p : parser) : Prop :=
  counters_in_range p /\ within_budget p /\
  (length (m_content_encoding p) <= 3)%nat /\
  (length (m_transfer_encoding p) <= 3)%nat.

(** The number that a sequence of decimal digits denotes, read from the
    left with an accumulator. *)
Fixpoint uint_value (d : Decimal.uint) (acc : Z) : Z :=
  match d with
  | Decimal.Nil => acc
  | Decimal.D0 l => uint_value l (acc * 10 + 0)
  | Decimal.D1 l => uint_value l (acc * 10 + 1)
  | Decimal.D2 l => uint_value l (acc * 10 + 2)
  | Decimal.D3 l => uint_value l (acc * 10 + 3)
  | Decimal.D4 l => uint_value l (acc * 10 + 4)
  | Decimal.D5 l => uint_value l (acc * 10 + 5)
  | Decimal.D6 l => uint_value l (acc * 10 + 6)
  | Decimal.D7 l => uint_value l (acc * 10 + 7)
  | Decimal.D8 l => uint_value l (acc * 10 + 8)
  | Decimal.D9 l => uint_value l (acc * 10 + 9)
  end.

(** ** Vocabulary of the further properties *)

(** Several [append_header] calls for one name, one per value, stopping at
    the first error. *)
Fixpoint append_all (key : string) (vals : list string) (p : parser)
  : error_code * parser :=
  match vals with
  | [] => (success, p)
  | v :: vs =>
      let '(ec, p1) := append_header key v p in
      if is_error ec then (ec, p1) else append_all key vs p1
  end.

(** The first value followed by the others, each after a comma and a
    space. *)
Definition comma_join (v : string) (vs : list string) : string :=
  fold_left (fun acc w => acc +:+ ", " +:+ w) vs v.

(** Every name in the store is made of token characters, and is filed under
    its lower-case folding. *)
Definition names_valid (p : parser) : Prop :=
  forall fk k v, m_headers p !! fk = Some (k, v) -> fold_case k = fk /\ token_name k.

(** The encodings that the tokens of a parameter list map to, in order. *)
Definition mapped_content (l : parameter_list) : list content_encoding :=
  omap (fun param : string * attribute_list => from_string param.1) l.

Definition mapped_transfer (l : parameter_list) : list transfer_encoding :=
  omap (fun param : string * attribute_list => transfer_encoding_of param.1) l.

(** Every token of the list maps to a content encoding, or to a transfer
    encoding. *)
Definition all_content (l : parameter_list) : Prop :=
  Forall (fun param : string * attribute_list => from_string param.1 <> None) l.

Definition all_transfer (l : parameter_list) : Prop :=
  Forall (fun param : string * attribute_list => transfer_encoding_of param.1 <> None) l.

(** Body buffers handed to [process_body] one after the other, whatever
    each call reports. *)
Fixpoint feed (p : parser) (bufs : list string) : option parser :=
  match bufs with
  | [] => Some p
  | buf :: rest =>
      match process_body p buf success with
      | Some (_, p', _) => feed p' rest
      | None => None
      end
  end.

(** The buffers of a stream, joined. *)
Fixpoint concat_all (bufs : list string) : string :=
  match bufs with
  | [] => EmptyString
  | buf :: rest => buf +:+ concat_all rest
  end.

(** A walk of the map meets every entry once. *)
Definition walks_every_entry (in_order : header_list -> list (string * string)) : Prop :=
  forall h : header_list, in_order h ≡ₚ (map_to_list h).*2.

(** The line that [raw_headers] writes for an entry, without its CRLF. *)
Definition header_line (it : string * string) : string := it.1 +:+ ": " +:+ it.2.

(** Header lines handed to [process_header] one after the other, up to the
    first error. *)
Fixpoint process_lines (header_separator : string) (strip_lws : string -> string)
    (lines : list string) (p : parser) : error_code * parser :=
  match lines with
  | [] => (success, p)
  | line :: rest =>
      let '(ec, p1) := process_header header_separator strip_lws line p in
      if is_error ec then (ec, p1)
      else process_lines header_separator strip_lws rest p1
  end.

(** * Properties *)

(** ** Strings *)

Lemma size_zero (s : string) : (size s =? 0) = true <-> s = EmptyString.
Proof.
  unfold size. destruct s; simpl; split; intros H; try done.
Qed.

Lemma size_nonzero (s : string) : (size s =? 0) = false <-> s <> EmptyString.
Proof.
  rewrite <- size_zero. destruct (size s =? 0); split; intros; congruence.
Qed.

Lemma eqb_empty (s : string) : String.eqb s EmptyString = true <-> s = EmptyString.
Proof. apply String.eqb_eq. Qed.

Lemma length_append (a b : string) :
  String.length (a +:+ b) = (String.length a + String.length b)%nat.
Proof. induction a as [|c a IH]; simpl; [done | by rewrite IH]. Qed.

Lemma append_empty_r (a : string) : a +:+ EmptyString = a.
Proof. induction a as [|c a IH]; simpl; [done | by rewrite IH]. Qed.

Lemma append_assoc (a b c : string) : (a +:+ b) +:+ c = a +:+ (b +:+ c).
Proof. induction a as [|x a IH]; simpl; [done | by rewrite IH]. Qed.

Lemma take_append (a b : string) : take (String.length a) (a +:+ b) = a.
Proof. induction a as [|c a IH]; simpl; [by destruct b | by rewrite IH]. Qed.

Lemma drop_append (a b : string) : drop (String.length a) (a +:+ b) = b.
Proof. induction a as [|c a IH]; simpl; [by destruct b | done]. Qed.

Lemma take_all (a : string) : take (String.length a) a = a.
Proof. induction a as [|c a IH]; simpl; [done | by rewrite IH]. Qed.

Lemma take_size (a : string) : take (Z.to_nat (size a)) a = a.
Proof. unfold size. rewrite Nat2Z.id. apply take_all. Qed.

Lemma starts_with_split (needle hay : string) :
  starts_with needle hay = true <-> exists post, hay = needle +:+ post.
Proof.
  revert hay. induction needle as [|a n IH]; intros hay; simpl.
  - split; [eauto | done].
  - destruct hay as [|b h].
    + split; [done | intros [post Hp]; discriminate].
    + destruct (Ascii.eqb_spec a b) as [->|Hne].
      * rewrite IH. split; intros [post Hp]; exists post; congruence.
      * split; [done | intros [post Hp]; congruence].
Qed.

Lemma search_le (hay needle : string) : (search hay needle <= String.length hay)%nat.
Proof.
  induction hay as [|c t IH]; simpl; destruct (starts_with _ _); simpl; lia.
Qed.

(** [std::search] returns [last] for a needle that does not occur. *)
Lemma search_absent (hay needle : string) :
  (forall pre post, hay <> pre +:+ needle +:+ post) ->
  search hay needle = String.length hay.
Proof.
  induction hay as [|c t IH]; intros Hno; simpl.
  - by destruct (starts_with needle EmptyString).
  - destruct (starts_with needle (String c t)) eqn:Hs.
    + apply starts_with_split in Hs as [post Hp].
      by destruct (Hno EmptyString post).
    + f_equal. apply IH. intros pre post Ht.
      apply (Hno (String c pre) post). simpl. by rewrite Ht.
Qed.

Lemma search_at_start (hay needle : string) :
  starts_with needle hay = true -> search hay needle = 0%nat.
Proof. destruct hay; simpl; by intros ->. Qed.

(** An occurrence bounds the offset that [std::search] returns. *)
Lemma search_occurrence (pre needle post : string) :
  (search (pre +:+ needle +:+ post) needle <= String.length pre)%nat.
Proof.
  induction pre as [|c t IH]; simpl.
  - rewrite search_at_start; [done |]. apply starts_with_split; eauto.
  - destruct (starts_with needle _); lia.
Qed.

Lemma search_present (hay needle : string) :
  needle <> EmptyString ->
  search hay needle = String.length hay ->
  forall pre post, hay <> pre +:+ needle +:+ post.
Proof.
  intros Hne Hs pre post ->.
  pose proof (search_occurrence pre needle post) as Hle.
  rewrite Hs, !length_append in Hle.
  destruct needle; [done | simpl in Hle; lia].
Qed.

Lemma find_if_end (p : ascii -> bool) (s : string) :
  find_if p s = String.length s <->
  Forall (fun c => p c = false) (list_ascii_of_string s).
Proof.
  induction s as [|c t IH]; simpl.
  - split; [constructor | done].
  - destruct (p c) eqn:Hc.
    + split; [done | intros H; inversion H; congruence].
    + split.
      * intros H. constructor; [done | apply IH; lia].
      * intros H. inversion H; subst. f_equal. by apply IH.
Qed.

(** ** Header names *)

Lemma invalid_name_false (key : string) : invalid_name key = false <-> token_name key.
Proof.
  unfold invalid_name, token_name. rewrite negb_false_iff, Nat.eqb_eq, find_if_end.
  apply Forall_iff. intros c. unfold is_not_token_char.
  by rewrite negb_false_iff.
Qed.

Lemma invalid_name_true (key : string) : invalid_name key = true <-> has_non_token_char key.
Proof.
  rewrite <- not_false_iff_true, invalid_name_false.
  unfold has_non_token_char, token_name.
  induction (list_ascii_of_string key) as [|c l IH].
  - split; [intros H; destruct H; constructor | intros H; inversion H].
  - rewrite Exists_cons, Forall_cons, <- IH.
    destruct (is_token_char c); intuition congruence.
Qed.

(** ** [strtoul] *)

Lemma skip_space_offset (s : string) (n : nat) :
  exists a, s = a +:+ (skip_space s n).1 /\
            (skip_space s n).2 = (n + String.length a)%nat.
Proof.
  revert n. induction s as [|c t IH]; intros n; simpl.
  - exists EmptyString. simpl. split; [done | lia].
  - destruct (isspace c).
    + destruct (IH (S n)) as (a & Ha & Hn). exists (String c a). simpl.
      split; [by rewrite <- Ha | lia].
    + exists EmptyString. simpl. split; [done | lia].
Qed.

Lemma read_sign_offset (s : string) (n : nat) :
  exists a, s = a +:+ (read_sign s n).1.2 /\
            (read_sign s n).2 = (n + String.length a)%nat.
Proof.
  destruct s as [|c t]; simpl.
  - exists EmptyString. simpl. split; [done | lia].
  - destruct (Ascii.eqb c "-"); [| destruct (Ascii.eqb c "+")]; simpl.
    + exists (str1 c). simpl. split; [done | lia].
    + exists (str1 c). simpl. split; [done | lia].
    + exists EmptyString. simpl. split; [done | lia].
Qed.

Lemma read_prefix_offset (base : Z) (s : string) (n : nat) :
  exists a, s = a +:+ (read_prefix base s n).1 /\
            (read_prefix base s n).2 = (n + String.length a)%nat.
Proof.
  assert (exists a, s = a +:+ s /\ n = (n + String.length a)%nat) as Hid
    by (exists EmptyString; simpl; split; [done | lia]).
  destruct s as [|c0 [|cx [|d t]]]; simpl; try exact Hid.
  destruct (_ && _); simpl; [| exact Hid].
  exists (String c0 (str1 cx)). simpl. split; [done | lia].
Qed.

Lemma read_digits_offset (base : Z) (s : string) (acc : Z) (n : nat) :
  (n <= (read_digits base s acc n).2 <= n + String.length s)%nat /\
  ((read_digits base s acc n).2 = (n + String.length s)%nat ->
   Forall (fun c => digit_in_base base c <> None) (list_ascii_of_string s)).
Proof.
  revert acc n. induction s as [|c t IH]; intros acc n; simpl.
  - split; [lia | constructor].
  - destruct (digit_in_base base c) as [d|] eqn:Hd; simpl.
    + destruct (IH (acc * base + d) (S n)) as [Hb Hall]. split; [lia |].
      intros Hn. constructor; [congruence | apply Hall; lia].
    + split; [lia | intros; lia].
Qed.

Lemma append_suffix_last (a s3 pre : string) (c : ascii) :
  a +:+ s3 = pre +:+ str1 c -> s3 <> EmptyString ->
  exists pre', s3 = pre' +:+ str1 c.
Proof.
  revert pre. induction a as [|x a IH]; intros pre Heq Hne; simpl in Heq.
  - eauto.
  - destruct pre as [|y pre]; simpl in Heq.
    + injection Heq as _ Heq. destruct a; simpl in Heq; [by subst | discriminate].
    + injection Heq as _ Heq. eauto.
Qed.

Lemma Forall_last_char (P : ascii -> Prop) (u : string) (c : ascii) :
  Forall P (list_ascii_of_string (u +:+ str1 c)) -> P c.
Proof.
  induction u as [|x u IH]; simpl; intros H; inversion H; subst; eauto.
Qed.

(** Where [strtoul] leaves [*endptr]: never past the end of the string, and
    at the end only if the last character was read as a digit. *)
Lemma strtoul_stops_at_non_digit (base : Z) (pre : string) (c : ascii) :
  digit_in_base base c = None ->
  (strtoul (pre +:+ str1 c) base).2 <> String.length (pre +:+ str1 c).
Proof.
  intros Hc. unfold strtoul.
  set (s := pre +:+ str1 c).
  destruct (skip_space_offset s 0) as (a1 & Hs1 & Hn1).
  destruct (skip_space s 0) as [s1 n1]; simpl in Hs1, Hn1.
  destruct (read_sign_offset s1 n1) as (a2 & Hs2 & Hn2).
  destruct (read_sign s1 n1) as [[neg s2] n2]; simpl in Hs2, Hn2.
  destruct (read_prefix_offset base s2 n2) as (a3 & Hs3 & Hn3).
  destruct (read_prefix base s2 n2) as [s3 n3]; simpl in Hs3, Hn3.
  destruct (read_digits_offset base s3 0 n3) as [Hb Hall].
  destruct (read_digits base s3 0 n3) as [v n4]; simpl in Hb, Hall.
  assert (String.length s = (n3 + String.length s3)%nat) as Hlen.
  { rewrite Hs1, Hs2, Hs3, !length_append. lia. }
  assert (1 <= String.length s)%nat as Hpos.
  { unfold s. rewrite length_append. simpl. lia. }
  destruct (Nat.eqb_spec n4 n3) as [->|Hn]; simpl; [lia |].
  intros H4. assert (s3 <> EmptyString) as Hne.
  { intros ->. simpl in *. lia. }
  assert ((a1 +:+ a2 +:+ a3) +:+ s3 = pre +:+ str1 c) as Hsplit.
  { rewrite !append_assoc. fold s. by rewrite <- Hs3, <- Hs2, <- Hs1. }
  destruct (append_suffix_last _ _ _ _ Hsplit Hne) as [pre' ->].
  assert (n4 = (n3 + String.length (pre' +:+ str1 c))%nat) as H4' by lia.
  apply Hall in H4'. by apply Forall_last_char in H4'.
Qed.

Lemma wrap_small (z : Z) : size_t_range z -> wrap z = z.
Proof.
  unfold size_t_range, wrap, ULONG_MAX. intros Hz. apply Z.mod_small. lia.
Qed.

Lemma wrap_range (z : Z) : size_t_range (wrap z).
Proof.
  unfold size_t_range, wrap, ULONG_MAX.
  pose proof (Z.mod_pos_bound z (2 ^ SIZE_BITS) ltac:(done)). lia.
Qed.

Lemma digit_in_base_nonneg (base : Z) (c : ascii) (d : Z) :
  digit_in_base base c = Some d -> 0 <= d.
Proof.
  unfold digit_in_base, digit_value.
  repeat match goal with
         | |- context [if ?b then _ else _] => destruct b eqn:?
         end; intros [= <-]; lia.
Qed.

Lemma read_digits_nonneg (base : Z) (s : string) (acc : Z) (n : nat) :
  0 <= base -> 0 <= acc -> 0 <= (read_digits base s acc n).1.
Proof.
  intros Hbase. revert acc n. induction s as [|c t IH]; intros acc n Hacc; simpl; [done |].
  destruct (digit_in_base base c) as [d|] eqn:Hd; [| done].
  apply IH. pose proof (digit_in_base_nonneg _ _ _ Hd). nia.
Qed.

(** [strtoul] returns an [unsigned long]. *)
Lemma strtoul_range (s : string) (base : Z) :
  0 <= base -> size_t_range (strtoul s base).1.
Proof.
  intros Hbase. unfold strtoul.
  destruct (skip_space s 0) as [s1 n1].
  destruct (read_sign s1 n1) as [[neg s2] n2].
  destruct (read_prefix base s2 n2) as [s3 n3].
  pose proof (read_digits_nonneg base s3 0 n3 Hbase ltac:(done)) as Hv.
  destruct (read_digits base s3 0 n3) as [v n4]. simpl in Hv.
  destruct (n4 =? n3)%nat; simpl; [by compute |].
  destruct (Z.ltb_spec ULONG_MAX v); [by compute |].
  destruct neg; [apply wrap_range | done].
Qed.

(** *** Decimal output read back by [strtoul] *)

Lemma read_digits_decimal (d : Decimal.uint) (acc : Z) (n : nat) :
  read_digits 10 (NilEmpty.string_of_uint d) acc n
  = (uint_value d acc, (n + Decimal.nb_digits d)%nat).
Proof.
  revert acc n. induction d; intros acc n; simpl;
    [f_equal; lia | rewrite IHd; f_equal; lia ..].
Qed.

Lemma length_string_of_uint (d : Decimal.uint) :
  String.length (NilEmpty.string_of_uint d) = Decimal.nb_digits d.
Proof. induction d; simpl; congruence. Qed.

Lemma uint_value_acc (d : Decimal.uint) (acc : positive) :
  uint_value d (Z.pos acc) = Z.pos (Pos.of_uint_acc d acc).
Proof.
  revert acc. induction d; intros acc; simpl; [done | rewrite <- IHd; f_equal; lia ..].
Qed.

Lemma uint_value_of_uint (d : Decimal.uint) : uint_value d 0 = Z.of_N (Pos.of_uint d).
Proof.
  induction d; simpl; [done | exact IHd | apply uint_value_acc ..].
Qed.

(** A string that starts with a decimal digit: [strtoul] in base 10 goes
    straight to the digits' loop. *)
Lemma strtoul_from_digit (c : ascii) (t : string) (d0 : Z) :
  digit_in_base 10 c = Some d0 ->
  strtoul (String c t) 10 =
    let '(v, n4) := read_digits 10 (String c t) 0 0 in
    if (n4 =? 0)%nat then (0, 0%nat)
    else (if ULONG_MAX <? v then ULONG_MAX else v, n4).
Proof.
  intros Hc. unfold strtoul.
  assert (isspace c = false /\ Ascii.eqb c "-" = false /\ Ascii.eqb c "+" = false)
    as (Hs & Hm & Hp).
  { revert Hc. destruct c as [[] [] [] [] [] [] [] []]; vm_compute; try done. }
  simpl skip_space. rewrite Hs. unfold read_sign. rewrite Hm, Hp.
  assert (read_prefix 10 (String c t) 0 = (String c t, 0%nat)) as ->.
  { unfold read_prefix. by destruct t as [|cx [|d t]]. }
  done.
Qed.

Lemma strtoul_to_decimal (n : Z) :
  size_t_range n ->
  strtoul (to_decimal n) 10 = (n, String.length (to_decimal n)).
Proof.
  intros [Hlo Hhi]. unfold to_decimal.
  set (d := N.to_uint (Z.to_N n)).
  assert (d <> Decimal.Nil) as Hd.
  { unfold d. destruct (Z.to_N n); [done | apply Unsigned.to_uint_nonnil]. }
  assert (NilZero.string_of_uint d = NilEmpty.string_of_uint d) as ->
    by (by destruct d).
  assert (uint_value d 0 = n) as Hv.
  { rewrite uint_value_of_uint. change (Pos.of_uint d) with (N.of_uint d).
    unfold d. rewrite DecimalN.Unsigned.of_to. lia. }
  assert (exists c t d0, NilEmpty.string_of_uint d = String c t
                         /\ digit_in_base 10 c = Some d0) as (c & t & d0 & Hs & Hc).
  { destruct d; [done | simpl; by eauto ..]. }
  pose proof (read_digits_decimal d 0 0) as Hr.
  pose proof (length_string_of_uint d) as Hl.
  rewrite Hs in Hr, Hl |- *. rewrite (strtoul_from_digit c t d0 Hc), Hr, Hv.
  simpl in Hl. rewrite <- Hl. simpl.
  destruct (Z.ltb_spec ULONG_MAX n); [lia | done].
Qed.

Lemma read_digits_stop (base : Z) (ds : string) (c : ascii) (post : string)
    (acc : Z) (n : nat) :
  Forall (fun x => digit_in_base base x <> None) (list_ascii_of_string ds) ->
  digit_in_base base c = None ->
  (read_digits base (ds +:+ String c post) acc n).2 = (n + String.length ds)%nat.
Proof.
  intros Hds Hc. revert acc n.
  induction ds as [|x ds IH]; intros acc n; simpl.
  - rewrite Hc. simpl. lia.
  - inversion Hds as [|? ? Hx Hrest]; subst.
    destruct (digit_in_base base x) as [d|]; [| done].
    rewrite IH by done. lia.
Qed.

(** Decimal digits followed by a character that is not one: [strtoul] stops
    at that character. *)
Lemma strtoul_digits_then_other (ds : string) (c : ascii) (post : string) :
  ds <> EmptyString ->
  Forall (fun x => digit_in_base 10 x <> None) (list_ascii_of_string ds) ->
  digit_in_base 10 c = None ->
  (strtoul (ds +:+ String c post) 10).2 = String.length ds.
Proof.
  intros Hne Hds Hc.
  pose proof (read_digits_stop 10 ds c post 0 0 Hds Hc) as Hstop.
  destruct ds as [|x ds]; [done |].
  inversion Hds as [|? ? Hx _]; subst.
  destruct (digit_in_base 10 x) as [d0|] eqn:Hd0; [| done].
  change (String x ds +:+ String c post) with (String x (ds +:+ String c post)) in *.
  rewrite (strtoul_from_digit _ _ d0 Hd0).
  destruct (read_digits 10 _ 0 0) as [v n4]. simpl in Hstop. subst n4. done.
Qed.

(** ** The header store *)

Lemma find_assign (h : header_list) (key val : string) :
  find (assign h key val) key = Some val.
Proof. unfold find, assign. by rewrite lookup_insert_eq. Qed.

Lemma find_assign_ne (h : header_list) (key key' val : string) :
  fold_case key <> fold_case key' -> find (assign h key val) key' = find h key'.
Proof. intros Hne. unfold find, assign. by rewrite lookup_insert_ne. Qed.

Lemma find_append_to (h : header_list) (key v val : string) :
  find h key = Some v -> find (append_to h key val) key = Some (v +:+ val).
Proof.
  unfold find, append_to, subscript. intros Hf. rewrite lookup_insert_eq.
  destruct (h !! fold_case key) as [[k v']|]; simpl in *; congruence.
Qed.

Lemma find_erase (h : header_list) (key : string) : find (erase h key) key = None.
Proof. unfold find, erase. by rewrite lookup_delete_eq. Qed.

Lemma find_erase_ne (h : header_list) (key key' : string) :
  fold_case key <> fold_case key' -> find (erase h key) key' = find h key'.
Proof. intros Hne. unfold find, erase. by rewrite lookup_delete_ne. Qed.

Lemma get_header_absent (p : parser) (key : string) :
  find (m_headers p) key = None -> get_header p key = EmptyString.
Proof. unfold get_header. by intros ->. Qed.

Lemma get_header_present (p : parser) (key v : string) :
  find (m_headers p) key = Some v -> get_header p key = v.
Proof. unfold get_header. by intros ->. Qed.

Lemma append_header_first (p : parser) (key val : string) :
  token_name key -> get_header p key = EmptyString ->
  append_header key val p = (success, with_headers (assign (m_headers p) key val) p).
Proof.
  intros Hk Hg. unfold append_header.
  apply invalid_name_false in Hk. rewrite Hk, Hg. done.
Qed.

Lemma append_header_more (p : parser) (key val : string) :
  token_name key -> get_header p key <> EmptyString ->
  append_header key val p
  = (success, with_headers (append_to (m_headers p) key (", " +:+ val)) p).
Proof.
  intros Hk Hg. unfold append_header.
  apply invalid_name_false in Hk. rewrite Hk.
  destruct (String.eqb_spec (get_header p key) EmptyString); done.
Qed.

Lemma content_length_is_token : invalid_name Header_ContentLength = false.
Proof. reflexivity. Qed.

(** ** Claims about the header store and the facade *)

(** Claim C7, as stated, fails: appending to a header whose first appended
    value is the empty string stores the second value alone, without the
    [", "] separator. *)
Lemma append_header_after_empty_value :
  let p0 := new_parser 0 in
  let p1 := (append_header "X" EmptyString p0).2 in
  let p2 := (append_header "X" "b" p1).2 in
  token_name "X" /\ find (m_headers p0) "X" = None /\
  (append_header "X" EmptyString p0).1 = success /\
  (append_header "X" "b" p1).1 = success /\
  get_header p2 "X" = "b" /\
  get_header p2 "X" <> EmptyString +:+ ", " +:+ "b".
Proof.
  repeat split; try reflexivity.
  - apply invalid_name_false. reflexivity.
  - vm_compute. discriminate.
Qed.

(** Claim C7, amended: for a name made of token characters only, [append]
    with no prior value stores the value verbatim and [get] returns it; when
    that value is not empty, a second [append] yields the first value, a
    comma, one space and the second value.  For a name with a character that
    is not a token character, [append] fails with [invalid_header_name] and
    the parser is unchanged. *)
Theorem append_header_folding (p : parser) (name v w : string) :
  (token_name name -> find (m_headers p) name = None ->
   exists p1,
     append_header name v p = (success, p1) /\
     find (m_headers p1) name = Some v /\
     get_header p1 name = v /\
     (v <> EmptyString ->
      exists p2,
        append_header name w p1 = (success, p2) /\
        get_header p2 name = v +:+ ", " +:+ w)) /\
  (has_non_token_char name -> append_header name v p = (invalid_header_name, p)).
Proof.
  split.
  - intros Hk Hf. eexists. split; [| split; [| split]].
    + apply append_header_first; [done | by apply get_header_absent].
    + apply find_assign.
    + apply get_header_present, find_assign.
    + intros Hv. eexists. split.
      * apply append_header_more; [done |].
        erewrite get_header_present; [done | apply find_assign].
      * apply get_header_present. simpl. apply find_append_to, find_assign.
  - intros Hk. unfold append_header.
    apply invalid_name_true in Hk. by rewrite Hk.
Qed.

Lemma append_header_folding_witness :
  (token_name "Accept" /\ find (m_headers (new_parser 0)) "Accept" = None /\
   has_non_token_char "Bad Name") /\
  (exists p1,
     append_header "Accept" "a" (new_parser 0) = (success, p1) /\
     find (m_headers p1) "Accept" = Some "a" /\
     get_header p1 "Accept" = "a" /\
     ("a" <> EmptyString ->
      exists p2,
        append_header "Accept" "b" p1 = (success, p2) /\
        get_header p2 "Accept" = "a" +:+ ", " +:+ "b")) /\
  append_header "Bad Name" "a" (new_parser 0) = (invalid_header_name, new_parser 0).
Proof.
  assert (token_name "Accept") as Hk by (apply invalid_name_false; reflexivity).
  assert (has_non_token_char "Bad Name") as Hb by (apply invalid_name_true; reflexivity).
  split; [by repeat split |]. split.
  - exact (proj1 (append_header_folding (new_parser 0) "Accept" "a" "b") Hk eq_refl).
  - exact (proj2 (append_header_folding (new_parser 0) "Bad Name" "a" "b") Hb).
Defined.

(** Claim C10: [append_header] tests the value that [get_header] returns,
    not the presence of the key.  When the value stored for a name is the
    empty string, as after [replace_header] with an empty value, [get_header] returns the
    same empty string as for an absent header, and a following [append]
    stores its value verbatim, with no separator. *)
Theorem append_header_after_empty (p : parser) (name v : string) :
  token_name name ->
  (find (m_headers p) name = Some EmptyString ->
   get_header p name = get_header (with_headers (erase (m_headers p) name) p) name /\
   exists p1,
     append_header name v p = (success, p1) /\
     find (m_headers p1) name = Some v) /\
  (exists p0 p1,
     replace_header name EmptyString p = (success, p0) /\
     find (m_headers p0) name = Some EmptyString /\
     get_header p0 name = empty_header /\
     get_header (remove_header name p).2 name = empty_header /\
     append_header name v p0 = (success, p1) /\
     find (m_headers p1) name = Some v).
Proof.
  intros Hk.
  assert (forall q, find (m_headers q) name = Some EmptyString ->
            get_header q name = EmptyString /\
            append_header name v q
            = (success, with_headers (assign (m_headers q) name v) q)) as Hstep.
  { intros q Hq. pose proof (get_header_present _ _ _ Hq) as Hg.
    split; [done | by apply append_header_first]. }
  pose proof Hk as Hk'. apply invalid_name_false in Hk'.
  split.
  - intros Hf. destruct (Hstep p Hf) as [Hg Ha]. split.
    + rewrite Hg. symmetry. apply get_header_absent. simpl. apply find_erase.
    + eexists. split; [exact Ha | apply find_assign].
  - unfold replace_header, remove_header. rewrite Hk'. do 2 eexists.
    split; [reflexivity |].
    assert (find (m_headers (with_headers (assign (m_headers p) name EmptyString) p)) name
            = Some EmptyString) as Hf by apply find_assign.
    destruct (Hstep _ Hf) as [Hg Ha].
    split; [exact Hf |]. split; [exact Hg |].
    split; [apply get_header_absent; simpl; apply find_erase |].
    split; [exact Ha | apply find_assign].
Qed.

Lemma append_header_after_empty_witness :
  token_name "Via" /\
  exists p0 p1,
    replace_header "Via" EmptyString (new_parser 0) = (success, p0) /\
    find (m_headers p0) "Via" = Some EmptyString /\
    get_header p0 "Via" = empty_header /\
    get_header (remove_header "Via" (new_parser 0)).2 "Via" = empty_header /\
    append_header "Via" "1.1 a" p0 = (success, p1) /\
    find (m_headers p1) "Via" = Some "1.1 a".
Proof.
  assert (token_name "Via") as Hk by (apply invalid_name_false; reflexivity).
  split; [exact Hk |].
  exact (proj2 (append_header_after_empty (new_parser 0) "Via" "1.1 a" Hk)).
Defined.

(** Claim C6: [set_body] with an empty value removes Content-Length and
    clears the body; with a value longer than a configured nonzero maximum
    it fails with [body_too_large] and changes nothing; otherwise it replaces
    Content-Length by the decimal length of the value and stores the value
    as the body.  After every successful call the Content-Length header
    agrees with the body: it is absent for an empty body, and otherwise it is
    the decimal length of the body, which [strtoul] reads back in full as
    that length. *)
Theorem set_body_cases (value : string) (p : parser) :
  (value = EmptyString ->
   set_body value p
   = (success,
      with_body EmptyString
        (with_headers (erase (m_headers p) Header_ContentLength) p))) /\
  (0 < m_body_bytes_max p -> m_body_bytes_max p < size value ->
   set_body value p = (body_too_large, p)) /\
  (value <> EmptyString ->
   m_body_bytes_max p = 0 \/ size value <= m_body_bytes_max p ->
   set_body value p
   = (success,
      with_body value
        (with_headers
           (assign (m_headers p) Header_ContentLength (to_decimal (size value))) p))) /\
  (forall p', set_body value p = (success, p') ->
     content_length_consistent p' /\
     (value <> EmptyString -> size_t_range (size value) ->
      strtoul (get_header p' Header_ContentLength) 10
      = (size (m_body p'), String.length (get_header p' Header_ContentLength)))).
Proof.
  assert (value <> EmptyString -> (size value =? 0) = false) as Hnz
    by (intros; by apply size_nonzero).
  assert (Hemp : value = EmptyString ->
    set_body value p
    = (success,
       with_body EmptyString
         (with_headers (erase (m_headers p) Header_ContentLength) p))).
  { intros ->. reflexivity. }
  assert (Hbig : 0 < m_body_bytes_max p -> m_body_bytes_max p < size value ->
    set_body value p = (body_too_large, p)).
  { intros Hmax Hlen. unfold set_body.
    destruct (size value =? 0) eqn:Hz; [apply Z.eqb_eq in Hz; lia |].
    replace (m_body_bytes_max p =? 0) with false by (symmetry; apply Z.eqb_neq; lia).
    replace (m_body_bytes_max p <? size value) with true
      by (symmetry; apply Z.ltb_lt; lia).
    reflexivity. }
  assert (Hok : value <> EmptyString ->
    m_body_bytes_max p = 0 \/ size value <= m_body_bytes_max p ->
    set_body value p
    = (success,
       with_body value
         (with_headers
            (assign (m_headers p) Header_ContentLength (to_decimal (size value))) p))).
  { intros Hv Hfit. unfold set_body. rewrite (Hnz Hv).
    replace (negb (m_body_bytes_max p =? 0) && (m_body_bytes_max p <? size value))
      with false; [reflexivity |].
    symmetry. destruct Hfit as [-> | Hle]; [reflexivity |].
    apply andb_false_iff. right. apply Z.ltb_ge. lia. }
  split; [done |]. split; [done |]. split; [done |].
  intros p' Hs. unfold content_length_consistent.
  destruct (decide (value = EmptyString)) as [Hv | Hv].
  - rewrite (Hemp Hv) in Hs. inversion Hs; subst p'; simpl.
    split; [apply find_erase | done].
  - unfold set_body in Hs. rewrite (Hnz Hv) in Hs.
    destruct (negb (m_body_bytes_max p =? 0) && (m_body_bytes_max p <? size value));
      [discriminate |].
    unfold replace_header in Hs. rewrite content_length_is_token in Hs. simpl in Hs.
    inversion Hs; subst p'; simpl.
    destruct (decide (value = EmptyString)); [done |].
    split; [apply find_assign |]. intros _ Hr.
    erewrite get_header_present by (simpl; apply find_assign).
    by apply strtoul_to_decimal.
Qed.

Lemma set_body_cases_witness :
  (0 < m_body_bytes_max (new_parser 3) /\ m_body_bytes_max (new_parser 3) < size "hello" /\
   "hello" <> EmptyString /\ m_body_bytes_max (new_parser 0) = 0) /\
  set_body EmptyString (new_parser 3)
  = (success,
     with_body EmptyString
       (with_headers (erase (m_headers (new_parser 3)) Header_ContentLength)
          (new_parser 3))) /\
  set_body "hello" (new_parser 3) = (body_too_large, new_parser 3) /\
  set_body "hello" (new_parser 0)
  = (success,
     with_body "hello"
       (with_headers
          (assign (m_headers (new_parser 0)) Header_ContentLength
             (to_decimal (size "hello"))) (new_parser 0))).
Proof.
  split; [repeat split; done |].
  split; [| split].
  - apply (proj1 (set_body_cases EmptyString (new_parser 3))). reflexivity.
  - apply (proj1 (proj2 (set_body_cases "hello" (new_parser 3)))); reflexivity.
  - apply (proj1 (proj2 (proj2 (set_body_cases "hello" (new_parser 0))))).
    + discriminate.
    + left. reflexivity.
Defined.

(** ** Header lines *)

Section Header_line_properties.

Variable header_separator : string.
Variable strip_lws : string -> string.

(** Claim C9: for a line in which the separator does not occur,
    [process_header] returns the [body_too_large] error code and leaves the
    parser, so the header store, unchanged. *)
Theorem process_header_without_separator (line : string) (p : parser) :
  (forall pre post, line <> pre +:+ header_separator +:+ post) ->
  process_header header_separator strip_lws line p = (body_too_large, p).
Proof.
  intros Hno. unfold process_header.
  rewrite (search_absent _ _ Hno), Nat.eqb_refl. reflexivity.
Qed.

End Header_line_properties.

Lemma process_header_without_separator_witness :
  (forall pre post, "Host example.org" <> pre +:+ ": " +:+ post) /\
  process_header ": " (fun s => s) "Host example.org" (new_parser 0)
  = (body_too_large, new_parser 0) /\
  (process_header ": " (fun s => s) "Host example.org" (new_parser 0)).1
  <> invalid_format /\
  (process_header ": " (fun s => s) "Host example.org" (new_parser 0)).1
  <> invalid_header_name.
Proof.
  assert (forall pre post, "Host example.org" <> pre +:+ ": " +:+ post) as Hno
    by (apply search_present; [discriminate | reflexivity]).
  split; [exact Hno |].
  rewrite (process_header_without_separator ": " (fun s => s) _ (new_parser 0) Hno).
  repeat split; discriminate.
Defined.

(** ** Encoding negotiation *)

Lemma content_encoding_loop_unmapped (l : parameter_list) (v : list content_encoding) :
  Exists (fun param => from_string param.1 = None) l ->
  (content_encoding_loop l v).1 = false.
Proof.
  revert v. induction l as [|param l IH]; intros v H; [inversion H |].
  simpl. destruct (from_string param.1) eqn:Hp; [| done].
  apply IH. inversion H; subst; [congruence | done].
Qed.

Lemma content_length_block_absent (p : parser) :
  get_header p Header_ContentLength = EmptyString ->
  content_length_block p = (false, p, success).
Proof. unfold content_length_block. by intros ->. Qed.

Lemma content_length_block_present (p : parser) :
  get_header p Header_ContentLength <> EmptyString ->
  let h := get_header p Header_ContentLength in
  let v := (strtoul h 10).1 in
  let p1 := with_total v (with_needed v p) in
  content_length_block p =
    if negb ((strtoul h 10).2 =? String.length h)%nat then (false, p1, invalid_format)
    else if negb (m_body_bytes_max p =? 0) && (m_body_bytes_max p <? v)
    then (false, p1, body_too_large)
    else (negb (v =? 0), p1, success).
Proof.
  intros Hne. simpl. unfold content_length_block.
  apply size_nonzero in Hne. rewrite Hne. simpl.
  by destruct (strtoul (get_header p Header_ContentLength) 10) as [v e].
Qed.

Section Negotiation_properties.

Variable extract_parameters : string -> parameter_list -> nat * parameter_list.


Lemma content_encoding_block_frame (p : parser) :
  same_message p (flow_parser (content_encoding_block extract_parameters p))
  /\ m_transfer_encoding (flow_parser (content_encoding_block extract_parameters p))
     = m_transfer_encoding p.
Proof.
  unfold content_encoding_block.
  destruct (get_header_as_plist _ _ _ _) as [[] l]; simpl; [by repeat split |].
  destruct (content_encoding_loop _ _) as [[] v]; simpl;
    [destruct (3 <? length v)%nat |]; by repeat split.
Qed.

Lemma transfer_encoding_block_frame (p : parser) :
  same_message p (flow_parser (transfer_encoding_block extract_parameters p))
  /\ m_content_encoding (flow_parser (transfer_encoding_block extract_parameters p))
     = m_content_encoding p.
Proof.
  unfold transfer_encoding_block.
  destruct (get_header_as_plist _ _ _ _) as [[] l]; simpl; [by repeat split |].
  destruct (bool_decide (l = [])); simpl; [by repeat split |].
  destruct (transfer_encoding_loop _ _) as [[] v]; simpl;
    [destruct (3 <? length v)%nat; [| destruct (has_chunked v)] |]; by repeat split.
Qed.

Lemma prepare_body_falls_through (p p1 p2 : parser) :
  content_encoding_block extract_parameters p = Next p1 ->
  transfer_encoding_block extract_parameters p1 = Next p2 ->
  prepare_body extract_parameters p = content_length_block p2 /\ same_message p p2.
Proof.
  intros H1 H2. unfold prepare_body. rewrite H1. simpl. rewrite H2. simpl.
  split; [done |].
  pose proof (content_encoding_block_frame p) as [F1 _].
  pose proof (transfer_encoding_block_frame p1) as [F2 _].
  rewrite H1 in F1. rewrite H2 in F2. simpl in *.
  unfold same_message in *. intuition congruence.
Qed.

(** Claim C4: the Content-Length path of [prepare_body], reached when both
    encoding blocks fall through.  An absent header gives [false] and no
    error.  A value that [strtoul] does not read to its end gives
    [invalid_format]: so does every value that ends in a character that is
    not a decimal digit, and every value in which such a character follows
    a run of digits.  A fully parsed value above a nonzero maximum gives
    [body_too_large], with the body untouched.  Any other value is stored in
    [bytes_needed] and [bytes_total], and the result is [true] exactly when
    the value is greater than 0. *)
Theorem prepare_body_content_length (p p1 p2 : parser) :
  content_encoding_block extract_parameters p = Next p1 ->
  transfer_encoding_block extract_parameters p1 = Next p2 ->
  let h := get_header p Header_ContentLength in
  let v := (strtoul h 10).1 in
  let p3 := with_total v (with_needed v p2) in
  (find (m_headers p) Header_ContentLength = None ->
   prepare_body extract_parameters p = (false, p2, success)) /\
  (h <> EmptyString -> (strtoul h 10).2 <> String.length h ->
   prepare_body extract_parameters p = (false, p3, invalid_format)) /\
  (forall pre c, h = pre +:+ str1 c -> digit_in_base 10 c = None ->
   prepare_body extract_parameters p = (false, p3, invalid_format)) /\
  (forall ds c post,
     h = ds +:+ String c post -> ds <> EmptyString ->
     Forall (fun x => digit_in_base 10 x <> None) (list_ascii_of_string ds) ->
     digit_in_base 10 c = None ->
     prepare_body extract_parameters p = (false, p3, invalid_format)) /\
  (h <> EmptyString -> (strtoul h 10).2 = String.length h ->
   m_body_bytes_max p <> 0 -> m_body_bytes_max p < v ->
   prepare_body extract_parameters p = (false, p3, body_too_large)) /\
  (h <> EmptyString -> (strtoul h 10).2 = String.length h ->
   m_body_bytes_max p = 0 \/ v <= m_body_bytes_max p ->
   prepare_body extract_parameters p = (negb (v =? 0), p3, success) /\
   (negb (v =? 0) = true <-> 0 < v) /\
   m_body_bytes_needed p3 = v /\ m_body_bytes_total p3 = v) /\
  m_body p3 = m_body p.
Proof.
  intros H1 H2 h v p3.
  destruct (prepare_body_falls_through p p1 p2 H1 H2)
    as [-> (_ & Hh & Hb & _ & _ & Hm)].
  assert (get_header p2 Header_ContentLength = h) as Hg
    by (unfold h, get_header; by rewrite Hh).
  assert (h <> EmptyString ->
          content_length_block p2 =
            if negb ((strtoul h 10).2 =? String.length h)%nat
            then (false, p3, invalid_format)
            else if negb (m_body_bytes_max p =? 0) && (m_body_bytes_max p <? v)
            then (false, p3, body_too_large)
            else (negb (v =? 0), p3, success)) as Hcl.
  { intros Hne. rewrite <- Hg in Hne.
    rewrite (content_length_block_present p2 Hne), Hg, Hm. done. }
  assert (h <> EmptyString -> (strtoul h 10).2 <> String.length h ->
          content_length_block p2 = (false, p3, invalid_format)) as Hbad.
  { intros Hne Hstop. rewrite (Hcl Hne). apply Nat.eqb_neq in Hstop. by rewrite Hstop. }
  split; [| split; [| split; [| split; [| split; [| split]]]]].
  - intros Hf. apply content_length_block_absent. rewrite Hg.
    by apply get_header_absent.
  - exact Hbad.
  - intros pre c Hpre Hc. apply Hbad; [rewrite Hpre; by destruct pre |].
    rewrite Hpre. by apply strtoul_stops_at_non_digit.
  - intros ds c post Hds Hne Hall Hc. apply Hbad; [rewrite Hds; by destruct ds |].
    rewrite Hds, (strtoul_digits_then_other ds c post Hne Hall Hc), length_append.
    simpl. lia.
  - intros Hne Hend Hmax Hv. rewrite (Hcl Hne), Hend, Nat.eqb_refl. simpl.
    apply Z.eqb_neq in Hmax. apply Z.ltb_lt in Hv. by rewrite Hmax, Hv.
  - intros Hne Hend Hfit. rewrite (Hcl Hne), Hend, Nat.eqb_refl. simpl.
    split; [| split; [| done]].
    + destruct Hfit as [-> | Hle]; [done |].
      apply Z.ltb_ge in Hle. rewrite Hle. by rewrite andb_false_r.
    + pose proof (strtoul_range h 10 ltac:(done)) as [Hlo _]. fold v in Hlo.
      rewrite negb_true_iff, Z.eqb_neq. lia.
  - done.
Qed.

(** Claim C3, amended: when the Content-Encoding header parses to a list in
    which some token, such as the last of four, does not map to a supported
    encoding, [prepare_body] fails with [unknown_content_encoding]: the
    mapping check runs on each entry inside the loop, before the check for
    more than 3 entries. *)
Theorem prepare_body_unmapped_content_encoding (p : parser) (ce_list : parameter_list) :
  get_header_as_plist extract_parameters p Header_ContentEncoding [] = (false, ce_list) ->
  Exists (fun param => from_string param.1 = None) ce_list ->
  exists p',
    prepare_body extract_parameters p = (false, p', unknown_content_encoding)
    /\ same_message p p'.
Proof.
  intros Hl Hex.
  pose proof (content_encoding_block_frame p) as [Hf _].
  unfold prepare_body. revert Hf. unfold content_encoding_block.
  rewrite Hl. simpl.
  pose proof (content_encoding_loop_unmapped ce_list (m_content_encoding p) Hex) as Hloop.
  destruct (content_encoding_loop ce_list (m_content_encoding p)) as [ok v].
  simpl in Hloop. subst ok. simpl. eauto.
Qed.


End Negotiation_properties.

(** *** The claims at concrete messages, with the list parser of the
    specification *)

Lemma prepare_body_content_length_witness :
  (content_encoding_block ListGrammar.extract_parameters
     (with_header Header_ContentLength "12abc" (new_parser 0))
   = Next (with_header Header_ContentLength "12abc" (new_parser 0)) /\
   transfer_encoding_block ListGrammar.extract_parameters
     (with_header Header_ContentLength "12abc" (new_parser 0))
   = Next (with_header Header_ContentLength "12abc" (new_parser 0))) /\
  prepare_body ListGrammar.extract_parameters (new_parser 0)
  = (false, new_parser 0, success) /\
  prepare_body ListGrammar.extract_parameters
    (with_header Header_ContentLength "12abc" (new_parser 0))
  = (false,
     with_total 12 (with_needed 12 (with_header Header_ContentLength "12abc" (new_parser 0))),
     invalid_format) /\
  prepare_body ListGrammar.extract_parameters
    (with_header Header_ContentLength "10" (new_parser 5))
  = (false,
     with_total 10 (with_needed 10 (with_header Header_ContentLength "10" (new_parser 5))),
     body_too_large) /\
  prepare_body ListGrammar.extract_parameters
    (with_header Header_ContentLength "10" (new_parser 0))
  = (true,
     with_total 10 (with_needed 10 (with_header Header_ContentLength "10" (new_parser 0))),
     success) /\
  prepare_body ListGrammar.extract_parameters
    (with_header Header_ContentLength "0" (new_parser 0))
  = (false,
     with_total 0 (with_needed 0 (with_header Header_ContentLength "0" (new_parser 0))),
     success).
Proof.
  assert (forall p,
    find (m_headers p) Header_ContentEncoding = None ->
    find (m_headers p) Header_TransferEncoding = None ->
    m_content_encoding p = [] ->
    content_encoding_block ListGrammar.extract_parameters p = Next p /\
    transfer_encoding_block ListGrammar.extract_parameters p = Next p) as Hnext.
  { intros p Hc Ht Hv. unfold content_encoding_block, transfer_encoding_block,
      get_header_as_plist. rewrite Hc, Ht. simpl. rewrite Hv. simpl.
    split; [| done]. destruct p; simpl in *; by subst. }
  split; [by apply Hnext |]. split; [| split; [| split; [| split]]].
  - destruct (Hnext (new_parser 0) eq_refl eq_refl eq_refl) as [H1 H2].
    apply (proj1 (prepare_body_content_length _ _ _ _ H1 H2)). reflexivity.
  - set (p := with_header Header_ContentLength "12abc" (new_parser 0)).
    destruct (Hnext p eq_refl eq_refl eq_refl) as [H1 H2].
    apply (proj1 (proj2 (proj2 (proj2 (prepare_body_content_length _ _ _ _ H1 H2))))
             "12" "a"%char "bc"); try reflexivity; [discriminate |].
    repeat constructor; discriminate.
  - set (p := with_header Header_ContentLength "10" (new_parser 5)).
    destruct (Hnext p eq_refl eq_refl eq_refl) as [H1 H2].
    apply (proj1 (proj2 (proj2 (proj2 (proj2
             (prepare_body_content_length _ _ _ _ H1 H2))))));
      [discriminate | reflexivity | discriminate | reflexivity].
  - set (p := with_header Header_ContentLength "10" (new_parser 0)).
    destruct (Hnext p eq_refl eq_refl eq_refl) as [H1 H2].
    apply (proj1 (proj2 (proj2 (proj2 (proj2 (proj2
             (prepare_body_content_length _ _ _ _ H1 H2)))))));
      [discriminate | reflexivity | by left].
  - set (p := with_header Header_ContentLength "0" (new_parser 0)).
    destruct (Hnext p eq_refl eq_refl eq_refl) as [H1 H2].
    apply (proj1 (proj2 (proj2 (proj2 (proj2 (proj2
             (prepare_body_content_length _ _ _ _ H1 H2)))))));
      [discriminate | reflexivity | by left].
Defined.

(** Claim C3, as stated, fails: for the four entries [gzip], [deflate],
    [compress] and [br], of which the last is unmapped, the error is
    [unknown_content_encoding] and not [unsupported_content_encoding]. *)
Lemma prepare_body_four_entries_last_unmapped :
  (get_header_as_plist ListGrammar.extract_parameters
     (with_header Header_ContentEncoding "gzip, deflate, compress, br" (new_parser 0))
     Header_ContentEncoding []).1 = false /\
  map fst
    (get_header_as_plist ListGrammar.extract_parameters
       (with_header Header_ContentEncoding "gzip, deflate, compress, br" (new_parser 0))
       Header_ContentEncoding []).2
  = ["gzip"; "deflate"; "compress"; "br"] /\
  from_string "br" = None /\
  (prepare_body ListGrammar.extract_parameters
     (with_header Header_ContentEncoding "gzip, deflate, compress, br" (new_parser 0))).2
  = unknown_content_encoding /\
  (prepare_body ListGrammar.extract_parameters
     (with_header Header_ContentEncoding "gzip, deflate, compress, br" (new_parser 0))).2
  <> unsupported_content_encoding.
Proof. vm_compute. repeat split; discriminate. Qed.

Lemma prepare_body_unmapped_content_encoding_witness :
  (get_header_as_plist ListGrammar.extract_parameters
     (with_header Header_ContentEncoding "gzip, deflate, compress, br" (new_parser 0))
     Header_ContentEncoding []
   = (false, [("gzip", ∅); ("deflate", ∅); ("compress", ∅); ("br", ∅)]) /\
   Exists (fun param : string * attribute_list => from_string param.1 = None)
     [("gzip", ∅); ("deflate", ∅); ("compress", ∅); ("br", ∅)]) /\
  exists p',
    prepare_body ListGrammar.extract_parameters
      (with_header Header_ContentEncoding "gzip, deflate, compress, br" (new_parser 0))
    = (false, p', unknown_content_encoding)
    /\ same_message
         (with_header Header_ContentEncoding "gzip, deflate, compress, br" (new_parser 0)) p'.
Proof.
  assert (get_header_as_plist ListGrammar.extract_parameters
     (with_header Header_ContentEncoding "gzip, deflate, compress, br" (new_parser 0))
     Header_ContentEncoding []
   = (false, [("gzip", ∅); ("deflate", ∅); ("compress", ∅); ("br", ∅)])) as Hl
    by (vm_compute; reflexivity).
  assert (Exists (fun param : string * attribute_list => from_string param.1 = None)
     [("gzip", ∅); ("deflate", ∅); ("compress", ∅); ("br", ∅)]) as Hex
    by (do 3 apply Exists_cons_tl; apply Exists_cons_hd; reflexivity).
  split; [by split |].
  exact (prepare_body_unmapped_content_encoding _ _ _ Hl Hex).
Defined.



(** ** The body decoder *)

Lemma drop_length (k : nat) (s : string) : (String.length (drop k s) <= String.length s)%nat.
Proof.
  revert s. induction k as [|k IH]; intros [|c t]; simpl; try lia.
  specialize (IH t). lia.
Qed.

Lemma process_body_rec_empty (fuel : nat) (p : parser) (ec : error_code) :
  process_body_rec fuel p EmptyString ec = Some (0, p, ec).
Proof. by destruct fuel. Qed.

Lemma process_body_rec_in_chunk (fuel : nat) (p : parser) (buf : string) (ec : error_code) :
  has_chunked (m_transfer_encoding p) = true ->
  m_body_bytes_needed p <> 0 ->
  buf <> EmptyString ->
  process_body_rec (S fuel) p buf ec = Some (copy_bytes p buf).
Proof.
  intros Hc Hn Hb. simpl. apply size_nonzero in Hb. apply Z.eqb_neq in Hn.
  by rewrite Hb, Hc, Hn.
Qed.

Lemma process_body_plain (p : parser) (buf : string) (ec : error_code) :
  has_chunked (m_transfer_encoding p) = false ->
  buf <> EmptyString ->
  process_body p buf ec = Some (copy_bytes p buf).
Proof.
  intros Hc Hb. unfold process_body. destruct buf as [|c t]; [done |].
  change (String.length (String c t)) with (S (String.length t)).
  simpl. by rewrite Hc.
Qed.

Lemma process_body_in_chunk (p : parser) (buf : string) (ec : error_code) :
  has_chunked (m_transfer_encoding p) = true ->
  m_body_bytes_needed p <> 0 ->
  buf <> EmptyString ->
  process_body p buf ec = Some (copy_bytes p buf).
Proof.
  intros Hc Hn Hb. unfold process_body. destruct buf as [|c t]; [done |].
  change (String.length (String c t)) with (S (String.length t)).
  by apply process_body_rec_in_chunk.
Qed.

Lemma drop_shorter (k : nat) (s : string) :
  (0 < k)%nat -> s <> EmptyString ->
  (String.length (drop k s) < String.length s)%nat.
Proof.
  intros Hk Hs. destruct k as [|k]; [lia |]. destruct s as [|c t]; [done |].
  simpl. pose proof (drop_length k t). lia.
Qed.

(** At a chunk boundary: the function, with its recursive call unfolded. *)
Lemma process_body_new_chunk (p : parser) (buf : string) (ec : error_code) :
  has_chunked (m_transfer_encoding p) = true ->
  m_body_bytes_needed p = 0 ->
  buf <> EmptyString ->
  let newline := search buf http_crlf in
  let hex := take newline buf in
  let p2 := chunk_started p (strtoul hex 16).1 in
  let rest := drop (newline + 2) buf in
  process_body p buf ec =
    if (newline =? String.length buf)%nat then Some (0, p, invalid_format)
    else if negb ((strtoul hex 16).2 =? String.length hex)%nat
    then Some (0, p2, invalid_format)
    else if negb (m_body_bytes_max p =? 0) && (m_body_bytes_max p <? m_body_bytes_total p2)
    then Some (0, p2, body_too_large)
    else if (strtoul hex 16).1 =? 0 then Some (size buf, p2, ec)
    else if size rest =? 0 then Some (wrap (Z.of_nat (newline + 2) + 0), p2, ec)
    else Some (wrap (Z.of_nat (newline + 2) + (copy_bytes p2 rest).1.1),
               (copy_bytes p2 rest).1.2, success).
Proof.
  intros Hc Hn Hb newline hex p2 rest. unfold process_body.
  destruct (String.length buf) as [|f] eqn:Hlen; [by destruct buf |].
  assert (process_body_rec (S f) p buf ec =
    if (newline =? S f)%nat then Some (0, p, invalid_format)
    else if negb ((strtoul hex 16).2 =? String.length hex)%nat
    then Some (0, p2, invalid_format)
    else if negb (m_body_bytes_max p =? 0) && (m_body_bytes_max p <? m_body_bytes_total p2)
    then Some (0, p2, body_too_large)
    else if (strtoul hex 16).1 =? 0 then Some (size buf, p2, ec)
    else match process_body_rec f p2 rest ec with
         | Some (n, p3, ec') => Some (wrap (Z.of_nat (newline + 2) + n), p3, ec')
         | None => None
         end) as ->.
  { simpl. assert ((size buf =? 0) = false) as -> by (by apply size_nonzero).
    rewrite Hc, Hn, Hlen. simpl. fold newline. fold hex. fold rest.
    destruct (newline =? S f)%nat; [done |].
    unfold p2, chunk_started. destruct (strtoul hex 16) as [v e]. simpl.
    done. }
  destruct (newline =? S f)%nat; [done |].
  destruct (negb _); [done |].
  destruct (negb _ && _); [done |].
  destruct ((strtoul hex 16).1 =? 0) eqn:Hv; [done |].
  destruct (size rest =? 0) eqn:Hr.
  - apply size_zero in Hr. rewrite Hr, process_body_rec_empty. done.
  - apply size_nonzero in Hr.
    assert (String.length rest < S f)%nat as Hfuel.
    { rewrite <- Hlen. apply drop_shorter; [lia | done]. }
    destruct f as [|f]; [destruct rest; [done | simpl in Hfuel; lia] |].
    rewrite process_body_rec_in_chunk; try done.
    unfold p2, chunk_started. simpl. by apply Z.eqb_neq.
Qed.


(** [process_body] returns on every input: the fuel it is run with
    suffices. *)
Lemma process_body_returns (p : parser) (buf : string) (ec : error_code) :
  exists n p' ec', process_body p buf ec = Some (n, p', ec').
Proof.
  destruct (decide (buf = EmptyString)) as [-> | Hb]; [by repeat eexists |].
  destruct (has_chunked (m_transfer_encoding p)) eqn:Hc.
  - destruct (decide (m_body_bytes_needed p = 0)) as [Hn | Hn].
    + rewrite (process_body_new_chunk p buf ec Hc Hn Hb).
      repeat match goal with |- context [if ?b then _ else _] => destruct b end;
        by repeat eexists.
    + rewrite (process_body_in_chunk p buf ec Hc Hn Hb).
      destruct (copy_bytes p buf) as [[n p'] ec']. by repeat eexists.
  - rewrite (process_body_plain p buf ec Hc Hb).
    destruct (copy_bytes p buf) as [[n p'] ec']. by repeat eexists.
Qed.




(** Claim C2 on the code: with [Transfer-Encoding: chunked] negotiated, one
    call on the chunked encoding of "Wikipedia" (24 bytes) consumes the size
    line and the payload of the first chunk only: it returns 7 and the body
    is "Wiki".  The call on the remaining 17 bytes meets the CRLF after the
    payload, takes it for the last chunk and returns 17: the body stays
    "Wiki", and "pedia" is decoded by neither call. *)
Theorem process_body_wikipedia_stream :
  String.length
    ("4" +:+ http_crlf +:+ "Wiki" +:+ http_crlf +:+
     "5" +:+ http_crlf +:+ "pedia" +:+ http_crlf +:+ "0" +:+ http_crlf +:+ http_crlf)
  = 24%nat /\
  exists p0 p1 p2,
    prepare_body ListGrammar.extract_parameters
      (with_header Header_TransferEncoding "chunked" (new_parser 0))
    = (true, p0, success) /\
    process_body p0
      ("4" +:+ http_crlf +:+ "Wiki" +:+ http_crlf +:+
       "5" +:+ http_crlf +:+ "pedia" +:+ http_crlf +:+ "0" +:+ http_crlf +:+ http_crlf)
      success
    = Some (7, p1, success) /\
    m_body p1 = "Wiki" /\
    process_body p1
      (http_crlf +:+ "5" +:+ http_crlf +:+ "pedia" +:+ http_crlf +:+ "0" +:+ http_crlf +:+ http_crlf)
      success
    = Some (17, p2, success) /\
    m_body p2 = "Wiki".
Proof.
  split; [reflexivity |].
  do 3 eexists. split; [vm_compute; reflexivity |].
  split; [vm_compute; reflexivity |].
  split; [reflexivity |].
  split; [vm_compute; reflexivity | reflexivity].
Qed.

(** ** The byte budget *)

Lemma within_budget_same (p p' : parser) :
  m_body_bytes_total p' = m_body_bytes_total p ->
  m_body_bytes_max p' = m_body_bytes_max p ->
  within_budget p -> within_budget p'.
Proof. unfold within_budget. by intros -> ->. Qed.

Lemma budget_check (p : parser) :
  negb (m_body_bytes_max p =? 0) && (m_body_bytes_max p <? m_body_bytes_total p) = false
  <-> within_budget p.
Proof.
  unfold within_budget. rewrite andb_false_iff, negb_false_iff, Z.eqb_eq, Z.ltb_ge.
  tauto.
Qed.

Lemma budget_check_fails (p : parser) :
  negb (m_body_bytes_max p =? 0) && (m_body_bytes_max p <? m_body_bytes_total p) = true
  <-> m_body_bytes_max p <> 0 /\ m_body_bytes_max p < m_body_bytes_total p.
Proof. by rewrite andb_true_iff, negb_true_iff, Z.eqb_neq, Z.ltb_lt. Qed.

(** What a call of the Content-Length block leaves behind. *)
Lemma content_length_block_budget (p : parser) :
  within_budget p ->
  let '(r, p', ec) := content_length_block p in
  m_body p' = m_body p /\ m_body_bytes_max p' = m_body_bytes_max p /\
  m_content_encoding p' = m_content_encoding p /\
  m_transfer_encoding p' = m_transfer_encoding p /\
  (ec = success /\ within_budget p'
   \/ r = false /\ ec = invalid_format
   \/ r = false /\ ec = body_too_large /\ m_body_bytes_max p' <> 0 /\
      m_body_bytes_max p' < m_body_bytes_total p').
Proof.
  intros Hb. unfold content_length_block.
  destruct (negb (size (get_header p Header_ContentLength) =? 0)); [| by auto 10].
  destruct (strtoul (get_header p Header_ContentLength) 10) as [v e].
  destruct (negb (e =? _)%nat); [by auto 10 |].
  set (p1 := with_total v (with_needed v p)).
  destruct (negb (m_body_bytes_max p1 =? 0) && _) eqn:Hchk.
  - apply budget_check_fails in Hchk. by auto 10.
  - apply budget_check in Hchk. by auto 10.
Qed.

Section Budget.

Variable extract_parameters : string -> parameter_list -> nat * parameter_list.

(** Every way out of [prepare_body]. *)
Lemma prepare_body_budget (p : parser) :
  within_budget p ->
  let '(r, p', ec) := prepare_body extract_parameters p in
  m_body p' = m_body p /\ m_body_bytes_max p' = m_body_bytes_max p /\
  (ec <> invalid_format /\ ec <> body_too_large /\ within_budget p'
   \/ r = false /\ ec = invalid_format
   \/ r = false /\ ec = body_too_large /\ m_body_bytes_max p' <> 0 /\
      m_body_bytes_max p' < m_body_bytes_total p').
Proof.
  intros Hb. unfold prepare_body.
  pose proof (content_encoding_block_frame extract_parameters p) as [F1 _].
  assert (forall q r q' ec, same_message p q ->
            transfer_encoding_block extract_parameters q = Return r q' ec ->
            ec <> invalid_format /\ ec <> body_too_large) as Hte.
  { intros q r q' ec _. unfold transfer_encoding_block.
    repeat match goal with
           | |- context [let '(_, _) := ?x in _] => destruct x
           | |- context [if ?b then _ else _] => destruct b
           end; intros [= <- <- <-] || intros [=]; done. }
  destruct (content_encoding_block extract_parameters p) as [r p1 ec | p1] eqn:H1.
  - simpl in *. destruct F1 as (_ & _ & Hbody & _ & Ht & Hm).
    split; [done |]. split; [done |]. left.
    assert (ec <> invalid_format /\ ec <> body_too_large) as [? ?].
    { revert H1. unfold content_encoding_block.
      repeat match goal with
             | |- context [let '(_, _) := ?x in _] => destruct x
             | |- context [if ?b then _ else _] => destruct b
             end; intros [= <- <- <-] || intros [=]; done. }
    repeat split; try done. by apply (within_budget_same p).
  - simpl in *.
    pose proof (transfer_encoding_block_frame extract_parameters p1) as [F2 _].
    destruct (transfer_encoding_block extract_parameters p1) as [r p2 ec | p2] eqn:H2.
    + simpl in *. destruct (Hte p1 r p2 ec F1 H2) as [? ?].
      unfold same_message in *.
      split; [intuition congruence |]. split; [intuition congruence |]. left.
      repeat split; try done.
      apply (within_budget_same p); intuition congruence.
    + simpl in *.
      assert (within_budget p2) as Hb2
        by (unfold same_message in *; apply (within_budget_same p); intuition congruence).
      pose proof (content_length_block_budget p2 Hb2) as Hcl.
      destruct (content_length_block p2) as [[r p'] ec].
      destruct Hcl as (Hbody & Hmax & _ & _ & Hcases).
      unfold same_message in *.
      split; [intuition congruence |]. split; [intuition congruence |].
      destruct Hcases as [[-> Hw] | [[-> ->] | (-> & -> & Hex)]]; by auto 10.
Qed.

End Budget.

(** Every way out of [process_body]. *)
Lemma process_body_budget (p : parser) (buf : string) (ec : error_code) :
  within_budget p ->
  exists n p' ec',
    process_body p buf ec = Some (n, p', ec') /\
    m_body_bytes_max p' = m_body_bytes_max p /\
    ((ec' = ec \/ ec' = success) /\ within_budget p'
     \/ n = 0 /\ ec' = invalid_format /\ m_body p' = m_body p
     \/ n = 0 /\ ec' = body_too_large /\ m_body p' = m_body p /\
        m_body_bytes_max p' <> 0 /\ m_body_bytes_max p' < m_body_bytes_total p').
Proof.
  intros Hb.
  assert (forall q, within_budget q ->
            m_body_bytes_max (copy_bytes q buf).1.2 = m_body_bytes_max q /\
            within_budget (copy_bytes q buf).1.2) as Hcopy
    by (intros q Hq; by split).
  destruct (decide (buf = EmptyString)) as [-> | Hne].
  { exists 0, p, ec. split; [done |]. split; [done |]. left. by auto. }
  destruct (has_chunked (m_transfer_encoding p)) eqn:Hc.
  - destruct (decide (m_body_bytes_needed p = 0)) as [Hn | Hn].
    + rewrite (process_body_new_chunk p buf ec Hc Hn Hne).
      set (hex := take (search buf http_crlf) buf).
      set (p2 := chunk_started p (strtoul hex 16).1).
      set (rest := drop (search buf http_crlf + 2) buf).
      assert (negb (m_body_bytes_max p =? 0) && (m_body_bytes_max p <? m_body_bytes_total p2)
              = negb (m_body_bytes_max p2 =? 0) && (m_body_bytes_max p2 <? m_body_bytes_total p2))
        as -> by done.
      destruct (search buf http_crlf =? String.length buf)%nat.
      { do 3 eexists. split; [done |]. split; [done |]. right. left. done. }
      destruct (negb (_ =? _)%nat).
      { do 3 eexists. split; [done |]. split; [done |]. right. left. done. }
      destruct (negb _ && _) eqn:Hchk.
      { apply budget_check_fails in Hchk.
        do 3 eexists. split; [done |]. split; [done |]. right. right. done. }
      apply budget_check in Hchk.
      destruct (_ =? 0).
      { do 3 eexists. split; [done |]. split; [done |]. left. by auto. }
      destruct (size rest =? 0).
      { do 3 eexists. split; [done |]. split; [done |]. left. by auto. }
      do 3 eexists. split; [done |]. split; [done |]. left. by auto.
    + rewrite (process_body_in_chunk p buf ec Hc Hn Hne).
      do 3 eexists. split; [done |]. split; [done |]. left. by auto.
  - rewrite (process_body_plain p buf ec Hc Hne).
    do 3 eexists. split; [done |]. split; [done |]. left. by auto.
Qed.

Lemma step_keeps_budget
    (extract_parameters : string -> parameter_list -> nat * parameter_list)
    (p p' : parser) :
  step extract_parameters p p' -> within_budget p -> within_budget p'.
Proof.
  intros Hstep Hb. destruct Hstep as
    [p r p' H | p buf n p' H | p key val p' H | p key val p' H | p key p' H
    | p value p' H | p].
  - pose proof (prepare_body_budget extract_parameters p Hb) as Hp.
    rewrite H in Hp. destruct Hp as (_ & _ & [(_ & _ & ?) | [[_ ?] | (_ & ? & _)]]); done.
  - destruct (process_body_budget p buf success Hb) as (n' & q & ec' & Hq & _ & Hcases).
    rewrite H in Hq. injection Hq as <- <- <-.
    destruct Hcases as [[_ ?] | [(_ & ? & _) | (_ & ? & _)]]; done.
  - revert H. unfold append_header.
    repeat match goal with |- context [if ?b then _ else _] => destruct b end;
      intros [= <-]; done.
  - revert H. unfold replace_header.
    destruct (invalid_name key); intros [= <-]; done.
  - revert H. unfold remove_header.
    destruct (invalid_name key); intros [= <-]; done.
  - revert H. unfold set_body, remove_header, replace_header.
    rewrite content_length_is_token. simpl.
    repeat match goal with |- context [if ?b then _ else _] => destruct b end;
      intros [= <-]; done.
  - done.
Qed.

(** Claim C1, as stated, fails: the counter is written before the limit is
    checked.  With a limit of 5 bytes, a Content-Length of 10 and a chunk of
    size 10 are both refused with [body_too_large], and both leave 10 in
    [bytes_total]. *)
Lemma byte_budget_exceeded_after_refusal :
  within_budget (with_header Header_ContentLength "10" (new_parser 5)) /\
  (prepare_body ListGrammar.extract_parameters
     (with_header Header_ContentLength "10" (new_parser 5))).2 = body_too_large /\
  m_body_bytes_max
    (prepare_body ListGrammar.extract_parameters
       (with_header Header_ContentLength "10" (new_parser 5))).1.2 = 5 /\
  m_body_bytes_total
    (prepare_body ListGrammar.extract_parameters
       (with_header Header_ContentLength "10" (new_parser 5))).1.2 = 10 /\
  ~ within_budget
      (prepare_body ListGrammar.extract_parameters
         (with_header Header_ContentLength "10" (new_parser 5))).1.2 /\
  within_budget (with_transfer_encoding [te_chunked] (new_parser 5)) /\
  exists p',
    process_body (with_transfer_encoding [te_chunked] (new_parser 5))
      ("A" +:+ http_crlf +:+ "0123456789" +:+ http_crlf) success
    = Some (0, p', body_too_large) /\
    m_body_bytes_max p' = 5 /\ m_body_bytes_total p' = 10 /\
    ~ within_budget p'.
Proof.
  assert (forall p, m_body_bytes_max p = 5 -> m_body_bytes_total p = 10 ->
                    ~ within_budget p) as Hover
    by (intros p Hm Ht [H | H]; rewrite Hm, ?Ht in H; lia).
  split; [right; simpl; lia |].
  split; [vm_compute; reflexivity |].
  split; [vm_compute; reflexivity |].
  split; [vm_compute; reflexivity |].
  split; [apply Hover; vm_compute; reflexivity |].
  split; [right; simpl; lia |].
  eexists. split; [vm_compute; reflexivity |].
  split; [reflexivity |]. split; [reflexivity |]. by apply Hover.
Qed.

(** Claim C1, amended: for every configured [max_bytes], [bytes_total] is
    within the limit after every [prepare_body] or [process_body] call that
    reports no error, when it was before the call, and so throughout every
    sequence of calls from a new parser in which no call reports an error.
    The limit is checked after the counter has been written: a call that
    leaves [bytes_total] above [max_bytes] fails with [body_too_large] or
    [invalid_format], returns [false] or 0 and leaves the body as it was, and
    whenever [body_too_large] is reported [bytes_total] already holds the
    value that exceeds the limit. *)
Theorem byte_budget_checked_after_commit
    (extract_parameters : string -> parameter_list -> nat * parameter_list) :
  (forall p r p' ec,
     within_budget p -> prepare_body extract_parameters p = (r, p', ec) ->
     (ec = success -> within_budget p') /\
     (~ within_budget p' ->
      r = false /\ (ec = body_too_large \/ ec = invalid_format) /\ m_body p' = m_body p) /\
     (ec = body_too_large ->
      m_body_bytes_max p' <> 0 /\ m_body_bytes_max p' < m_body_bytes_total p')) /\
  (forall p buf ec,
     within_budget p ->
     exists n p' ec',
       process_body p buf ec = Some (n, p', ec') /\
       (ec' = success -> within_budget p') /\
       (~ within_budget p' ->
        n = 0 /\ (ec' = body_too_large \/ ec' = invalid_format) /\ m_body p' = m_body p) /\
       (ec = success -> ec' = body_too_large ->
        m_body_bytes_max p' <> 0 /\ m_body_bytes_max p' < m_body_bytes_total p')) /\
  (forall max p,
     size_t_range max ->
     rtc (step extract_parameters) (new_parser max) p -> within_budget p).
Proof.
  split; [| split].
  - intros p r p' ec Hb Hp.
    pose proof (prepare_body_budget extract_parameters p Hb) as H.
    rewrite Hp in H. destruct H as (Hbody & _ & Hcases).
    destruct Hcases as [(Hi & Ht & Hw) | [[-> ->] | (-> & -> & Hex)]];
      intuition congruence.
  - intros p buf ec Hb.
    destruct (process_body_budget p buf ec Hb) as (n & p' & ec' & Hp & _ & Hcases).
    exists n, p', ec'. split; [done |].
    destruct Hcases as [[Hec Hw] | [(-> & -> & Hbody) | (-> & -> & Hbody & Hex)]];
      intuition congruence.
  - intros max p Hmax. revert p. apply rtc_ind_r.
    + right. simpl. apply Hmax.
    + intros q p' _ Hstep IH. by apply (step_keeps_budget extract_parameters q).
Qed.

Lemma byte_budget_checked_after_commit_witness :
  (within_budget (with_header Header_ContentLength "3" (new_parser 5)) /\
   size_t_range 5 /\
   within_budget (with_transfer_encoding [te_chunked] (new_parser 5)) /\
   prepare_body ListGrammar.extract_parameters
     (with_header Header_ContentLength "3" (new_parser 5))
   = (true,
      with_total 3 (with_needed 3 (with_header Header_ContentLength "3" (new_parser 5))),
      success) /\
   rtc (step ListGrammar.extract_parameters) (new_parser 5)
     (with_total 3 (with_needed 3 (with_header Header_ContentLength "3" (new_parser 5))))) /\
  within_budget
    (with_total 3 (with_needed 3 (with_header Header_ContentLength "3" (new_parser 5)))) /\
  (exists n p' ec',
     process_body (with_transfer_encoding [te_chunked] (new_parser 5))
       ("A" +:+ http_crlf +:+ "0123456789") success
     = Some (n, p', ec') /\
     (ec' = success -> within_budget p') /\
     (~ within_budget p' ->
      n = 0 /\ (ec' = body_too_large \/ ec' = invalid_format) /\
      m_body p' = m_body (with_transfer_encoding [te_chunked] (new_parser 5))) /\
     (success = success -> ec' = body_too_large ->
      m_body_bytes_max p' <> 0 /\ m_body_bytes_max p' < m_body_bytes_total p')).
Proof.
  set (p0 := with_header Header_ContentLength "3" (new_parser 5)).
  set (p1 := with_total 3 (with_needed 3 p0)).
  set (q0 := with_transfer_encoding [te_chunked] (new_parser 5)).
  assert (within_budget p0) as Hb by (right; simpl; lia).
  assert (within_budget q0) as Hq by (right; simpl; lia).
  assert (size_t_range 5) as Hr by (by compute).
  assert (prepare_body ListGrammar.extract_parameters p0 = (true, p1, success)) as Hp
    by (vm_compute; reflexivity).
  assert (rtc (step ListGrammar.extract_parameters) (new_parser 5) p1) as Hrun.
  { apply (rtc_l _ _ p0).
    - apply (step_replace_header _ _ Header_ContentLength "3"). reflexivity.
    - apply rtc_once. by apply (step_prepare_body _ _ true). }
  split; [by repeat split |]. split.
  - exact (proj2 (proj2 (byte_budget_checked_after_commit ListGrammar.extract_parameters))
             5 p1 Hr Hrun).
  - exact (proj1 (proj2 (byte_budget_checked_after_commit ListGrammar.extract_parameters))
             q0 ("A" +:+ http_crlf +:+ "0123456789") success Hq).
Defined.

(** ** The state of a parser that has reported no error *)

Lemma encoding_loops_keep_success
    (extract_parameters : string -> parameter_list -> nat * parameter_list)
    (p : parser) :
  (length (m_content_encoding p) <= 3)%nat ->
  (length (m_transfer_encoding p) <= 3)%nat ->
  (forall p1, content_encoding_block extract_parameters p = Next p1 ->
              (length (m_content_encoding p1) <= 3)%nat) /\
  (forall r p1, transfer_encoding_block extract_parameters p = Return r p1 success ->
                (length (m_transfer_encoding p1) <= 3)%nat) /\
  (forall p1, transfer_encoding_block extract_parameters p = Next p1 ->
              (length (m_transfer_encoding p1) <= 3)%nat) /\
  (forall r p1, content_encoding_block extract_parameters p <> Return r p1 success).
Proof.
  intros Hc Ht. unfold content_encoding_block, transfer_encoding_block.
  destruct (get_header_as_plist _ p Header_ContentEncoding []) as [bc lc].
  destruct (get_header_as_plist _ p Header_TransferEncoding []) as [bt lt].
  destruct (content_encoding_loop lc (m_content_encoding p)) as [okc vc].
  destruct (transfer_encoding_loop lt (m_transfer_encoding p)) as [okt vt].
  repeat split; intros *;
    repeat match goal with
           | |- context [if ?b then _ else _] => destruct b eqn:?
           end; simpl in *; try (intros [= <-] || intros [= <- <-]); try done;
    repeat match goal with
           | H : (_ <? _)%nat = false |- _ => apply Nat.ltb_ge in H
           end; subst; try done.
Qed.

Lemma copy_bytes_range (p : parser) (buf : string) :
  counters_in_range p -> counters_in_range (copy_bytes p buf).1.2.
Proof.
  unfold counters_in_range, size_t_range, copy_bytes, size. simpl.
  intros ((? & ?) & ? & ?). repeat split; lia.
Qed.

Lemma chunk_started_range (p : parser) (s : string) :
  counters_in_range p -> counters_in_range (chunk_started p (strtoul s 16).1).
Proof.
  unfold counters_in_range, chunk_started. simpl. intros (_ & _ & ?).
  split; [by apply strtoul_range |]. split; [apply wrap_range | done].
Qed.

(** The shape of a result of [process_body] that touches neither the headers
    nor the lists of encodings. *)
Ltac frame_goal :=
  do 3 eexists; (split; [reflexivity |]); do 3 (split; [done |]); auto.

Lemma process_body_frame (p : parser) (buf : string) (ec : error_code) :
  exists n p' ec',
    process_body p buf ec = Some (n, p', ec') /\
    m_headers p' = m_headers p /\
    m_content_encoding p' = m_content_encoding p /\
    m_transfer_encoding p' = m_transfer_encoding p /\
    (counters_in_range p -> counters_in_range p').
Proof.
  destruct (decide (buf = EmptyString)) as [-> | Hne]; [by frame_goal |].
  pose proof (copy_bytes_range p buf) as Hcopy.
  destruct (has_chunked (m_transfer_encoding p)) eqn:Hc.
  - destruct (decide (m_body_bytes_needed p = 0)) as [Hn | Hn].
    + rewrite (process_body_new_chunk p buf ec Hc Hn Hne).
      set (hex := take (search buf http_crlf) buf).
      set (rest := drop (search buf http_crlf + 2) buf).
      pose proof (chunk_started_range p hex) as Hstart.
      pose proof (copy_bytes_range (chunk_started p (strtoul hex 16).1) rest) as Hrest.
      repeat match goal with |- context [if ?b then _ else _] => destruct b end;
        by frame_goal.
    + rewrite (process_body_in_chunk p buf ec Hc Hn Hne). by frame_goal.
  - rewrite (process_body_plain p buf ec Hc Hne). by frame_goal.
Qed.

Lemma content_length_block_range (p : parser) :
  counters_in_range p -> counters_in_range (content_length_block p).1.2.
Proof.
  intros Hr. unfold content_length_block.
  destruct (negb (size (get_header p Header_ContentLength) =? 0)); [| done].
  pose proof (strtoul_range (get_header p Header_ContentLength) 10 ltac:(done)) as Hv.
  destruct (strtoul (get_header p Header_ContentLength) 10) as [v e]. simpl in Hv.
  assert (counters_in_range (with_total v (with_needed v p)))
    by (destruct Hr as (_ & _ & ?); unfold counters_in_range; simpl; auto).
  repeat match goal with |- context [if ?b then _ else _] => destruct b end; done.
Qed.

Section Invariant.

Variable extract_parameters : string -> parameter_list -> nat * parameter_list.

Lemma prepare_body_keeps_invariant (p p' : parser) (r : bool) :
  parser_invariant p ->
  prepare_body extract_parameters p = (r, p', success) ->
  parser_invariant p'.
Proof.
  intros (Hr & Hb & Hc & Ht) Hp.
  assert (within_budget p') as Hb'
    by (apply (step_keeps_budget extract_parameters p p');
        [by apply (step_prepare_body _ _ r) | done]).
  revert Hp. unfold prepare_body.
  destruct (encoding_loops_keep_success extract_parameters p Hc Ht)
    as (Hc1 & _ & _ & Hnc).
  pose proof (content_encoding_block_frame extract_parameters p) as [F1 Ft1].
  destruct (content_encoding_block extract_parameters p) as [r1 p1 ec1 | p1] eqn:H1; simpl.
  { intros [= -> -> ->]. by destruct (Hnc r p'). }
  simpl in F1, Ft1. specialize (Hc1 p1 eq_refl).
  assert (counters_in_range p1) as Hr1.
  { destruct F1 as (_ & _ & _ & E1 & E2 & E3).
    unfold counters_in_range. by rewrite E1, E2, E3. }
  rewrite <- Ft1 in Ht.
  destruct (encoding_loops_keep_success extract_parameters p1 Hc1 Ht)
    as (_ & Ht1 & Ht2 & _).
  pose proof (transfer_encoding_block_frame extract_parameters p1) as [F2 Fc2].
  destruct (transfer_encoding_block extract_parameters p1) as [r2 p2 ec2 | p2] eqn:H2; simpl.
  { intros [= -> -> ->]. simpl in F2, Fc2. specialize (Ht1 r p' eq_refl).
    destruct F2 as (_ & _ & _ & E1 & E2 & E3).
    unfold parser_invariant, counters_in_range in *.
    rewrite E1, E2, E3, Fc2. tauto. }
  simpl in F2, Fc2. specialize (Ht2 p2 eq_refl).
  assert (counters_in_range p2) as Hr2.
  { destruct F2 as (_ & _ & _ & E1 & E2 & E3).
    unfold counters_in_range. by rewrite E1, E2, E3. }
  assert (within_budget p2) as Hb2.
  { destruct F1 as (_ & _ & _ & _ & E2 & E3). destruct F2 as (_ & _ & _ & _ & G2 & G3).
    apply (within_budget_same p); congruence. }
  pose proof (content_length_block_range p2 Hr2) as Hr3.
  pose proof (content_length_block_budget p2 Hb2) as Hcl.
  destruct (content_length_block p2) as [[r3 p3] ec3]. simpl in Hr3.
  destruct Hcl as (_ & _ & Ec & Et & _).
  intros [= -> -> ->]. unfold parser_invariant.
  rewrite Ec, Et, Fc2. tauto.
Qed.

Lemma step_keeps_invariant (p p' : parser) :
  step extract_parameters p p' -> parser_invariant p -> parser_invariant p'.
Proof.
  intros Hstep Hinv.
  pose proof (step_keeps_budget _ _ _ Hstep (proj1 (proj2 Hinv))) as Hb'.
  destruct Hstep as
    [p r p' H | p buf n p' H | p key val p' H | p key val p' H | p key p' H
    | p value p' H | p].
  - by apply (prepare_body_keeps_invariant p p' r).
  - destruct (process_body_frame p buf success) as (n' & q & ec' & Hq & _ & Ec & Et & Hr).
    rewrite H in Hq. injection Hq as <- <- <-.
    destruct Hinv as (? & _ & ? & ?). repeat split; try done; try congruence; by apply Hr.
  - revert H Hb'. unfold append_header.
    repeat match goal with |- context [if ?b then _ else _] => destruct b end;
      intros [= <-]; done.
  - revert H Hb'. unfold replace_header.
    destruct (invalid_name key); intros [= <-]; done.
  - revert H Hb'. unfold remove_header.
    destruct (invalid_name key); intros [= <-]; done.
  - revert H Hb'. unfold set_body, remove_header, replace_header.
    rewrite content_length_is_token. simpl.
    repeat match goal with |- context [if ?b then _ else _] => destruct b end;
      intros [= <-]; done.
  - done.
Qed.

(** As long as no call has reported an error, the counters are [size_t]
    values within the budget and each list of encodings holds at most 3
    entries: the state that claims C5 and C8 start from. *)
Theorem parser_invariant_reachable (max : Z) (p : parser) :
  size_t_range max ->
  rtc (step extract_parameters) (new_parser max) p ->
  parser_invariant p.
Proof.
  intros Hmax. revert p. apply rtc_ind_r.
  - unfold parser_invariant, counters_in_range, within_budget. simpl.
    assert (size_t_range 0) by (by compute).
    repeat split; try done; try lia; try apply Hmax. right. apply Hmax.
  - intros q p' _ Hstep IH. by apply (step_keeps_invariant q).
Qed.

End Invariant.

Lemma parser_invariant_reachable_witness :
  (size_t_range 5 /\
   rtc (step ListGrammar.extract_parameters) (new_parser 5)
     (with_total 3 (with_needed 3 (with_header Header_ContentLength "3" (new_parser 5))))) /\
  parser_invariant
    (with_total 3 (with_needed 3 (with_header Header_ContentLength "3" (new_parser 5)))).
Proof.
  assert (size_t_range 5) as Hr by (by compute).
  assert (rtc (step ListGrammar.extract_parameters) (new_parser 5)
            (with_total 3 (with_needed 3
               (with_header Header_ContentLength "3" (new_parser 5))))) as Hrun.
  { apply (rtc_l _ _ (with_header Header_ContentLength "3" (new_parser 5))).
    - apply (step_replace_header _ _ Header_ContentLength "3"). reflexivity.
    - apply rtc_once. apply (step_prepare_body _ _ true). vm_compute. reflexivity. }
  split; [by split |].
  exact (parser_invariant_reachable ListGrammar.extract_parameters 5 _ Hr Hrun).
Defined.

(** ** Further properties of the body decoder *)

(** The counter of a chunked body is a [size_t] sum, so it is reduced modulo
    2^64 before the limit is checked.  With a limit of 4 bytes, a chunk of
    size 3 followed by a chunk of size [0xFFFFFFFFFFFFFFFD] brings
    [bytes_total] to 0: both size lines pass the check, and the bytes that
    follow are appended to a body of 13 bytes. *)
Theorem chunk_sizes_wrap_around_limit :
  exists p1 p2,
    process_body (with_transfer_encoding [te_chunked] (new_parser 4))
      ("3" +:+ http_crlf +:+ "abc") success
    = Some (6, p1, success) /\
    m_body_bytes_total p1 = 3 /\ within_budget p1 /\
    process_body p1 ("FFFFFFFFFFFFFFFD" +:+ http_crlf +:+ "0123456789") success
    = Some (28, p2, success) /\
    m_body_bytes_total p2 = 0 /\ within_budget p2 /\
    m_body p2 = "abc0123456789" /\
    m_body_bytes_max p2 < size (m_body p2).
Proof.
  do 2 eexists.
  split; [vm_compute; reflexivity |]. split; [reflexivity |].
  split; [right; simpl; lia |].
  split; [vm_compute; reflexivity |]. split; [reflexivity |].
  split; [right; simpl; lia |]. split; [reflexivity |]. by compute.
Qed.

(** Plain framing: a body announced by Content-Length and fed in two
    buffers is stored whole, and nothing is left to read after the second
    call. *)
Theorem plain_body_in_two_calls (p : parser) (a b : string) (ec : error_code) :
  has_chunked (m_transfer_encoding p) = false ->
  a <> EmptyString -> b <> EmptyString ->
  m_body_bytes_needed p = size (a +:+ b) ->
  exists p1 p2,
    process_body p a ec = Some (size a, p1, success) /\
    process_body p1 b success = Some (size b, p2, success) /\
    m_body p2 = m_body p +:+ a +:+ b /\
    m_body_bytes_needed p2 = 0.
Proof.
  intros Hc Ha Hb Hn.
  assert (size (a +:+ b) = size a + size b) as Hsz
    by (unfold size; rewrite length_append; lia).
  assert (0 <= size a /\ 0 <= size b) as [Hsa Hsb] by (unfold size; lia).
  rewrite (process_body_plain p a ec Hc Ha). unfold copy_bytes.
  rewrite Hn, Hsz, Z.min_r, take_size by lia.
  eexists. eexists. split; [reflexivity |].
  rewrite process_body_plain by done. unfold copy_bytes. simpl.
  replace (size a + size b - size a) with (size b) by lia.
  rewrite Z.min_id, Z.sub_diag, take_size.
  split; [reflexivity |]. simpl. split; [apply append_assoc | done].
Qed.

Lemma plain_body_in_two_calls_witness :
  (has_chunked (m_transfer_encoding (with_needed 5 (new_parser 0))) = false /\
   "he" <> EmptyString /\ "llo" <> EmptyString /\
   m_body_bytes_needed (with_needed 5 (new_parser 0)) = size ("he" +:+ "llo")) /\
  exists p1 p2,
    process_body (with_needed 5 (new_parser 0)) "he" success = Some (size "he", p1, success) /\
    process_body p1 "llo" success = Some (size "llo", p2, success) /\
    m_body p2 = m_body (with_needed 5 (new_parser 0)) +:+ "he" +:+ "llo" /\
    m_body_bytes_needed p2 = 0.
Proof.
  split; [by repeat split |].
  exact (plain_body_in_two_calls (with_needed 5 (new_parser 0)) "he" "llo" success
           eq_refl ltac:(discriminate) ltac:(discriminate) eq_refl).
Defined.

(** [consume_body] empties the body and touches nothing else; a second call
    changes nothing. *)
Theorem consume_body_idempotent (p : parser) :
  m_body (consume_body p) = EmptyString /\
  m_headers (consume_body p) = m_headers p /\
  consume_body (consume_body p) = consume_body p.
Proof. by repeat split. Qed.

(** * Further properties *)

(** ** The header store *)

Lemma find_append_to_ne (h : header_list) (key key' val : string) :
  fold_case key <> fold_case key' -> find (append_to h key val) key' = find h key'.
Proof. intros Hne. unfold find, append_to. by rewrite lookup_insert_ne. Qed.

Lemma find_same_fold (h : header_list) (key key' : string) :
  fold_case key' = fold_case key -> find h key' = find h key.
Proof. unfold find. by intros ->. Qed.

Lemma header_op_cases (key val : string) (p : parser) :
  (invalid_name key = true /\
   append_header key val p = (invalid_header_name, p) /\
   replace_header key val p = (invalid_header_name, p) /\
   remove_header key p = (invalid_header_name, p))
  \/
  (invalid_name key = false /\
   (append_header key val p = (success, with_headers (assign (m_headers p) key val) p)
    \/ append_header key val p
       = (success, with_headers (append_to (m_headers p) key (", " +:+ val)) p)) /\
   replace_header key val p = (success, with_headers (assign (m_headers p) key val) p) /\
   remove_header key p = (success, with_headers (erase (m_headers p) key) p)).
Proof.
  unfold append_header, replace_header, remove_header.
  destruct (invalid_name key); [by left | right].
  destruct (String.eqb _ _); auto.
Qed.

(** Header names are compared without regard to ASCII case: two names with
    the same lower-case folding read the same header, and a value stored by
    [replace_header] under one spelling comes back under the other. *)
Theorem header_lookup_ignores_case (p : parser) (key key' val : string) :
  fold_case key' = fold_case key ->
  get_header p key' = get_header p key /\
  (token_name key ->
   exists p1, replace_header key val p = (success, p1) /\
              get_header p1 key' = val /\ get_header p1 key = val).
Proof.
  intros Hfold. split.
  - unfold get_header. by rewrite (find_same_fold _ _ _ Hfold).
  - intros Hk. apply invalid_name_false in Hk. unfold replace_header. rewrite Hk.
    eexists. split; [reflexivity |].
    split; apply get_header_present; simpl;
      [rewrite (find_same_fold _ _ _ Hfold) |]; apply find_assign.
Qed.

Lemma header_lookup_ignores_case_witness :
  (fold_case "content-LENGTH" = fold_case "Content-Length" /\
   token_name "Content-Length") /\
  get_header (new_parser 0) "content-LENGTH" = get_header (new_parser 0) "Content-Length" /\
  exists p1,
    replace_header "Content-Length" "7" (new_parser 0) = (success, p1) /\
    get_header p1 "content-LENGTH" = "7" /\ get_header p1 "Content-Length" = "7".
Proof.
  assert (token_name "Content-Length") as Hk by (apply invalid_name_false; reflexivity).
  split; [by split |].
  destruct (header_lookup_ignores_case (new_parser 0)
              "Content-Length" "content-LENGTH" "7" eq_refl) as [H1 H2].
  split; [exact H1 | exact (H2 Hk)].
Defined.

(** [append_header], [replace_header] and [remove_header] touch one header:
    whether they succeed or fail, every header under another name (up to
    case) reads as before, and the body, the counters and the lists of
    encodings are as before. *)
Theorem header_ops_touch_one_header (p : parser) (key key' val : string) :
  fold_case key <> fold_case key' ->
  (get_header (append_header key val p).2 key' = get_header p key' /\
   get_header (replace_header key val p).2 key' = get_header p key' /\
   get_header (remove_header key p).2 key' = get_header p key') /\
  with_headers (m_headers p) (append_header key val p).2 = p /\
  with_headers (m_headers p) (replace_header key val p).2 = p /\
  with_headers (m_headers p) (remove_header key p).2 = p.
Proof.
  intros Hne.
  destruct (header_op_cases key val p)
    as [(_ & -> & -> & ->) | (_ & Ha & -> & ->)].
  - by destruct p.
  - split.
    + unfold get_header. simpl. rewrite find_assign_ne, find_erase_ne by done.
      destruct Ha as [-> | ->]; simpl;
        rewrite ?find_assign_ne, ?find_append_to_ne by done; done.
    + destruct Ha as [-> | ->]; by destruct p.
Qed.

Lemma header_ops_touch_one_header_witness :
  fold_case "Host" <> fold_case "Accept" /\
  get_header (append_header "Host" "b" (with_header "Accept" "a" (new_parser 0))).2 "Accept"
  = get_header (with_header "Accept" "a" (new_parser 0)) "Accept" /\
  get_header (replace_header "Host" "b" (with_header "Accept" "a" (new_parser 0))).2 "Accept"
  = get_header (with_header "Accept" "a" (new_parser 0)) "Accept" /\
  get_header (remove_header "Host" (with_header "Accept" "a" (new_parser 0))).2 "Accept"
  = get_header (with_header "Accept" "a" (new_parser 0)) "Accept".
Proof.
  assert (fold_case "Host" <> fold_case "Accept") as Hne by discriminate.
  split; [exact Hne |].
  exact (proj1 (header_ops_touch_one_header
                  (with_header "Accept" "a" (new_parser 0)) "Host" "Accept" "b" Hne)).
Defined.

(** [remove_header] with a name of token characters never fails: afterwards
    the header reads as empty under every spelling of the name, removing a
    header that is not there leaves the parser as it was, and a second
    removal changes nothing. *)
Theorem remove_header_clears (p : parser) (key : string) :
  token_name key ->
  exists p1,
    remove_header key p = (success, p1) /\
    find (m_headers p1) key = None /\
    get_header p1 key = EmptyString /\
    (find (m_headers p) key = None -> p1 = p) /\
    remove_header key p1 = (success, p1).
Proof.
  intros Hk. apply invalid_name_false in Hk. unfold remove_header. rewrite Hk.
  eexists. split; [reflexivity |]. simpl.
  assert (forall h : header_list, find h key = None -> erase h key = h) as Hid.
  { intros h. unfold find, erase. destruct (h !! fold_case key) eqn:Hl; [done |].
    intros _. by apply delete_id. }
  split; [apply find_erase |].
  split; [apply get_header_absent; simpl; apply find_erase |].
  split.
  - intros Hf. rewrite (Hid _ Hf). by destruct p.
  - rewrite Hid by apply find_erase. done.
Qed.

Lemma remove_header_clears_witness :
  token_name "Accept" /\
  exists p1,
    remove_header "Accept" (with_header "accept" "a" (new_parser 0)) = (success, p1) /\
    find (m_headers p1) "Accept" = None /\
    get_header p1 "Accept" = EmptyString /\
    (find (m_headers (with_header "accept" "a" (new_parser 0))) "Accept" = None ->
     p1 = with_header "accept" "a" (new_parser 0)) /\
    remove_header "Accept" p1 = (success, p1).
Proof.
  assert (token_name "Accept") as Hk by (apply invalid_name_false; reflexivity).
  split; [exact Hk |].
  exact (remove_header_clears (with_header "accept" "a" (new_parser 0)) "Accept" Hk).
Defined.

(** The three header operations validate the name in the same way: each
    succeeds exactly when every character of the name is a token character,
    which the empty name satisfies, and each fails with
    [invalid_header_name], leaving the parser as it was, when some character
    is not. *)
Theorem header_name_validation (p : parser) (key val : string) :
  ((append_header key val p).1 = success <-> token_name key) /\
  ((replace_header key val p).1 = success <-> token_name key) /\
  ((remove_header key p).1 = success <-> token_name key) /\
  (has_non_token_char key ->
   append_header key val p = (invalid_header_name, p) /\
   replace_header key val p = (invalid_header_name, p) /\
   remove_header key p = (invalid_header_name, p)) /\
  token_name EmptyString.
Proof.
  rewrite <- !invalid_name_false.
  destruct (header_op_cases key val p)
    as [(Hi & -> & -> & ->) | (Hi & Ha & -> & ->)]; rewrite Hi; simpl.
  - repeat split; try done; intros; constructor.
  - assert ((append_header key val p).1 = success) as -> by (destruct Ha as [-> | ->]; done).
    repeat split; try done; try constructor.
    all: match goal with H : has_non_token_char _ |- _ =>
           apply invalid_name_true in H; congruence end.
Qed.

Lemma header_name_validation_witness :
  has_non_token_char "Bad:Name" /\
  replace_header "Bad:Name" "v" (with_header "Accept" "a" (new_parser 0))
  = (invalid_header_name, with_header "Accept" "a" (new_parser 0)) /\
  remove_header "Bad:Name" (with_header "Accept" "a" (new_parser 0))
  = (invalid_header_name, with_header "Accept" "a" (new_parser 0)).
Proof.
  assert (has_non_token_char "Bad:Name") as Hb by (apply invalid_name_true; reflexivity).
  split; [exact Hb |].
  exact (proj2 (proj1 (proj2 (proj2 (proj2
           (header_name_validation (with_header "Accept" "a" (new_parser 0))
              "Bad:Name" "v")))) Hb)).
Defined.

Lemma append_all_present (name : string) (vs : list string) (p : parser) (acc : string) :
  token_name name -> find (m_headers p) name = Some acc -> acc <> EmptyString ->
  exists p',
    append_all name vs p = (success, p') /\
    find (m_headers p') name = Some (comma_join acc vs).
Proof.
  intros Hk. revert p acc. induction vs as [|w vs IH]; intros p acc Hf Hacc; simpl.
  - eauto.
  - rewrite append_header_more; [| done | by rewrite (get_header_present _ _ _ Hf)].
    simpl. apply IH.
    + simpl. by apply find_append_to.
    + by destruct acc.
Qed.

(** Appending a non-empty value and then any further values to a header
    that is not in the store folds them into one value, in order, each
    further value after a comma and a space. *)
Theorem append_header_folds_list (p : parser) (name v : string) (vs : list string) :
  token_name name -> find (m_headers p) name = None -> v <> EmptyString ->
  exists p',
    append_all name (v :: vs) p = (success, p') /\
    get_header p' name = comma_join v vs.
Proof.
  intros Hk Hf Hv. simpl.
  rewrite append_header_first; [| done | by apply get_header_absent]. simpl.
  destruct (append_all_present name vs
              (with_headers (assign (m_headers p) name v) p) v Hk) as (p' & Ha & Hr);
    [simpl; apply find_assign | done |].
  exists p'. split; [done | by apply get_header_present].
Qed.

Lemma append_header_folds_list_witness :
  (token_name "Via" /\ find (m_headers (new_parser 0)) "Via" = None /\
   "1.0 a" <> EmptyString) /\
  exists p',
    append_all "Via" ["1.0 a"; "1.1 b"; EmptyString; "1.1 c"] (new_parser 0) = (success, p') /\
    get_header p' "Via" = comma_join "1.0 a" ["1.1 b"; EmptyString; "1.1 c"].
Proof.
  assert (token_name "Via") as Hk by (apply invalid_name_false; reflexivity).
  split; [by repeat split |].
  exact (append_header_folds_list (new_parser 0) "Via" "1.0 a"
           ["1.1 b"; EmptyString; "1.1 c"] Hk eq_refl ltac:(discriminate)).
Defined.

(** ** What [prepare_body] leaves alone *)

Lemma content_length_block_frame (p : parser) :
  m_version (content_length_block p).1.2 = m_version p /\
  m_headers (content_length_block p).1.2 = m_headers p /\
  m_body (content_length_block p).1.2 = m_body p /\
  m_body_bytes_max (content_length_block p).1.2 = m_body_bytes_max p /\
  m_content_encoding (content_length_block p).1.2 = m_content_encoding p /\
  m_transfer_encoding (content_length_block p).1.2 = m_transfer_encoding p /\
  ((content_length_block p).1.1 = true -> (content_length_block p).2 = success).
Proof.
  unfold content_length_block.
  destruct (negb (size (get_header p Header_ContentLength) =? 0)); [| done].
  destruct (strtoul (get_header p Header_ContentLength) 10) as [v e].
  repeat match goal with |- context [if ?b then _ else _] => destruct b end; done.
Qed.

Lemma encoding_loops_extend (l : parameter_list) :
  (forall v, exists s, (content_encoding_loop l v).2 = v ++ s) /\
  (forall v, exists s, (transfer_encoding_loop l v).2 = v ++ s).
Proof.
  induction l as [|param l [IHc IHt]]; simpl.
  - split; intros v; exists []; by rewrite app_nil_r.
  - split; intros v.
    + destruct (from_string param.1) as [e|]; [| exists []; by rewrite app_nil_r].
      destruct (IHc (v ++ [e])) as [s ->]. exists (e :: s). by rewrite <- app_assoc.
    + destruct (transfer_encoding_of param.1) as [e|]; [| exists []; by rewrite app_nil_r].
      destruct (IHt (v ++ [e])) as [s ->]. exists (e :: s). by rewrite <- app_assoc.
Qed.

Section Prepare_body_frame.

Variable extract_parameters : string -> parameter_list -> nat * parameter_list.

Lemma encoding_blocks_extend (p : parser) :
  (exists s, m_content_encoding (flow_parser (content_encoding_block extract_parameters p))
             = m_content_encoding p ++ s) /\
  (exists s, m_transfer_encoding (flow_parser (transfer_encoding_block extract_parameters p))
             = m_transfer_encoding p ++ s) /\
  (forall r p' ec, content_encoding_block extract_parameters p = Return r p' ec ->
                   r = false /\ ec <> success) /\
  (forall r p' ec, transfer_encoding_block extract_parameters p = Return r p' ec ->
                   r = true -> ec = success).
Proof.
  assert (forall A (v : list A), exists s, v = v ++ s) as Hnil
    by (intros A v; exists []; by rewrite app_nil_r).
  unfold content_encoding_block, transfer_encoding_block.
  destruct (get_header_as_plist _ p Header_ContentEncoding []) as [bc lc].
  destruct (get_header_as_plist _ p Header_TransferEncoding []) as [bt lt].
  destruct (proj1 (encoding_loops_extend lc) (m_content_encoding p)) as [sc Hsc].
  destruct (proj2 (encoding_loops_extend lt) (m_transfer_encoding p)) as [st Hst].
  destruct (content_encoding_loop lc (m_content_encoding p)) as [okc vc].
  destruct (transfer_encoding_loop lt (m_transfer_encoding p)) as [okt vt].
  simpl in Hsc, Hst. subst vc vt.
  split; [| split; [| split]].
  - repeat match goal with |- context [if ?b then _ else _] => destruct b end;
      simpl; eauto.
  - repeat match goal with |- context [if ?b then _ else _] => destruct b end;
      simpl; eauto.
  - intros r p' ec.
    repeat match goal with |- context [if ?b then _ else _] => destruct b end;
      intros [=]; subst; done.
  - intros r p' ec.
    repeat match goal with |- context [if ?b then _ else _] => destruct b end;
      intros [=]; subst; done.
Qed.

Lemma prepare_body_frame (p : parser) :
  m_version (prepare_body extract_parameters p).1.2 = m_version p /\
  m_headers (prepare_body extract_parameters p).1.2 = m_headers p /\
  m_body (prepare_body extract_parameters p).1.2 = m_body p /\
  m_body_bytes_max (prepare_body extract_parameters p).1.2 = m_body_bytes_max p /\
  (exists s, m_content_encoding (prepare_body extract_parameters p).1.2
             = m_content_encoding p ++ s) /\
  (exists s, m_transfer_encoding (prepare_body extract_parameters p).1.2
             = m_transfer_encoding p ++ s) /\
  ((prepare_body extract_parameters p).1.1 = true ->
   (prepare_body extract_parameters p).2 = success).
Proof.
  unfold prepare_body.
  pose proof (content_encoding_block_frame extract_parameters p) as [F1 Ft1].
  destruct (encoding_blocks_extend p) as ([sc Hc] & _ & Hrc & _).
  destruct (content_encoding_block extract_parameters p) as [r1 p1 ec1 | p1]; simpl in *.
  { destruct F1 as (? & ? & ? & _ & _ & ?). destruct (Hrc r1 p1 ec1 eq_refl) as [-> _].
    split_and!; try done; [by exists sc | exists []; by rewrite app_nil_r, Ft1]. }
  pose proof (transfer_encoding_block_frame extract_parameters p1) as [F2 Fc2].
  destruct (encoding_blocks_extend p1) as (_ & [st Ht] & _ & Hrt).
  destruct (transfer_encoding_block extract_parameters p1) as [r2 p2 ec2 | p2]; simpl in *.
  { destruct F1 as (? & ? & ? & _ & _ & ?). destruct F2 as (? & ? & ? & _ & _ & ?).
    split_and!; try congruence;
      [exists sc; congruence | exists st; congruence | by apply (Hrt r2 p2 ec2)]. }
  destruct (content_length_block_frame p2) as (? & ? & ? & ? & ? & ? & ?).
  destruct F1 as (? & ? & ? & _ & _ & ?). destruct F2 as (? & ? & ? & _ & _ & ?).
  split_and!; try congruence; [exists sc; congruence | exists st; congruence | done].
Qed.

(** [prepare_body] reads the headers and never changes them, nor the body,
    the version or the configured maximum.  It reports that a body is
    expected only together with no error.  The lists of encodings are never
    cleared: what a call finds in them stays at their front. *)
Theorem prepare_body_reads_only (p : parser) :
  forall r p' ec,
    prepare_body extract_parameters p = (r, p', ec) ->
    m_version p' = m_version p /\ m_headers p' = m_headers p /\
    m_body p' = m_body p /\ m_body_bytes_max p' = m_body_bytes_max p /\
    (r = true -> ec = success) /\
    (exists s, m_content_encoding p' = m_content_encoding p ++ s) /\
    (exists s, m_transfer_encoding p' = m_transfer_encoding p ++ s).
Proof.
  intros r p' ec Hp. pose proof (prepare_body_frame p) as H.
  rewrite Hp in H. simpl in H. tauto.
Qed.

End Prepare_body_frame.

(** ** Names in the store *)

Lemma names_valid_headers (p p' : parser) :
  m_headers p' = m_headers p -> names_valid p -> names_valid p'.
Proof. unfold names_valid. by intros ->. Qed.

Lemma names_valid_header_op (p : parser) (key val : string) :
  names_valid p ->
  names_valid (append_header key val p).2 /\
  names_valid (replace_header key val p).2 /\
  names_valid (remove_header key p).2.
Proof.
  intros Hp.
  assert (token_name key ->
          forall v, names_valid (with_headers (assign (m_headers p) key v) p)) as Hassign.
  { intros Hk v fk k w. simpl. unfold assign, subscript.
    destruct (decide (fold_case key = fk)) as [<- | Hne].
    - rewrite lookup_insert_eq. intros [= <- <-].
      destruct (m_headers p !! fold_case key) as [[k0 w0]|] eqn:Hl; simpl; [| done].
      exact (Hp _ _ _ Hl).
    - rewrite lookup_insert_ne by done. apply Hp. }
  assert (token_name key ->
          forall v, names_valid (with_headers (append_to (m_headers p) key v) p)) as Happ.
  { intros Hk v fk k w. simpl. unfold append_to, subscript.
    destruct (decide (fold_case key = fk)) as [<- | Hne].
    - rewrite lookup_insert_eq. intros [= <- <-].
      destruct (m_headers p !! fold_case key) as [[k0 w0]|] eqn:Hl; simpl; [| done].
      exact (Hp _ _ _ Hl).
    - rewrite lookup_insert_ne by done. apply Hp. }
  assert (names_valid (with_headers (erase (m_headers p) key) p)) as Herase.
  { intros fk k w. simpl. unfold erase. intros Hl.
    apply lookup_delete_Some in Hl as [_ Hl]. by apply (Hp _ _ _ Hl). }
  destruct (header_op_cases key val p)
    as [(_ & -> & -> & ->) | (Hi & Ha & -> & ->)]; [done |].
  apply invalid_name_false in Hi.
  split; [destruct Ha as [-> | ->]; simpl; auto | split; simpl; auto].
Qed.

Lemma names_valid_set_body (p : parser) (value : string) :
  names_valid p -> names_valid (set_body value p).2.
Proof.
  intros Hp. destruct (names_valid_header_op p Header_ContentLength
                         (to_decimal (size value)) Hp) as (_ & Hr & Hd).
  unfold set_body.
  destruct (size value =? 0).
  - destruct (remove_header Header_ContentLength p) as [ec p1]. simpl in Hd.
    destruct (is_error ec); simpl; [done |]. by apply (names_valid_headers p1).
  - destruct (negb _ && _); [done |].
    destruct (replace_header Header_ContentLength _ p) as [ec p1]. simpl in Hr.
    destruct (is_error ec); simpl; [done |]. by apply (names_valid_headers p1).
Qed.

Section Names.

Variable extract_parameters : string -> parameter_list -> nat * parameter_list.
Variable header_separator : string.
Variable strip_lws : string -> string.

Lemma step_keeps_names (p p' : parser) :
  step extract_parameters p p' -> names_valid p -> names_valid p'.
Proof.
  intros Hstep Hp. destruct Hstep as
    [p r p' H | p buf n p' H | p key val p' H | p key val p' H | p key p' H
    | p value p' H | p].
  - apply (names_valid_headers p); [| done].
    pose proof (prepare_body_frame extract_parameters p) as (_ & Hh & _).
    by rewrite H in Hh.
  - destruct (process_body_frame p buf success) as (n' & q & ec' & Hq & Hh & _).
    rewrite H in Hq. injection Hq as <- <- <-. by apply (names_valid_headers p).
  - pose proof (proj1 (names_valid_header_op p key val Hp)) as Hv. by rewrite H in Hv.
  - pose proof (proj1 (proj2 (names_valid_header_op p key val Hp))) as Hv.
    by rewrite H in Hv.
  - pose proof (proj2 (proj2 (names_valid_header_op p key EmptyString Hp))) as Hv.
    by rewrite H in Hv.
  - pose proof (names_valid_set_body p value Hp) as Hv. by rewrite H in Hv.
  - done.
Qed.

(** The store never holds an invalid name.  A new parser holds no name, and
    every operation that writes to the store validates the name first, so
    from a store whose names are all made of token characters each of
    [append_header], [replace_header], [remove_header], [set_body] and
    [process_header] leads to such a store again, whether it succeeds or
    fails; the same holds through every sequence of calls. *)
Theorem stored_names_stay_valid :
  (forall max, names_valid (new_parser max)) /\
  (forall p key val value line,
     names_valid p ->
     names_valid (append_header key val p).2 /\
     names_valid (replace_header key val p).2 /\
     names_valid (remove_header key p).2 /\
     names_valid (set_body value p).2 /\
     names_valid (process_header header_separator strip_lws line p).2) /\
  (forall max p,
     rtc (step extract_parameters) (new_parser max) p -> names_valid p).
Proof.
  assert (forall max, names_valid (new_parser max)) as Hnew.
  { intros max fk k v. simpl. by rewrite lookup_empty. }
  split; [exact Hnew |]. split.
  - intros p key val value line Hp.
    destruct (names_valid_header_op p key val Hp) as (Ha & Hr & Hd).
    split; [done |]. split; [done |]. split; [done |].
    split; [by apply names_valid_set_body |].
    unfold process_header. destruct (_ =? _)%nat; [done |].
    by apply names_valid_header_op.
  - intros max. apply rtc_ind_r; [apply Hnew |].
    intros q p' _ Hstep IH. by apply (step_keeps_names q).
Qed.

End Names.

Lemma stored_names_stay_valid_witness :
  names_valid (with_header "Accept" "a" (new_parser 0)) /\
  names_valid (append_header "Bad Name" "x" (with_header "Accept" "a" (new_parser 0))).2 /\
  names_valid (replace_header "Bad Name" "x" (with_header "Accept" "a" (new_parser 0))).2 /\
  names_valid (remove_header "Bad Name" (with_header "Accept" "a" (new_parser 0))).2 /\
  names_valid (set_body "hello" (with_header "Accept" "a" (new_parser 0))).2 /\
  names_valid
    (process_header ": " (fun s => s) "Via: 1.1 a"
       (with_header "Accept" "a" (new_parser 0))).2.
Proof.
  assert (names_valid (with_header "Accept" "a" (new_parser 0))) as Hp.
  { intros fk k v. simpl. unfold assign. simpl.
    destruct (decide (fold_case "Accept" = fk)) as [<- | Hne].
    - rewrite lookup_insert_eq. intros [= <- <-].
      split; [done | apply invalid_name_false; reflexivity].
    - rewrite lookup_insert_ne by done. by rewrite lookup_empty. }
  split; [exact Hp |].
  exact (proj1 (proj2 (stored_names_stay_valid ListGrammar.extract_parameters
                         ": " (fun s => s)))
           _ "Bad Name" "x" "hello" "Via: 1.1 a" Hp).
Defined.

Lemma prepare_body_reads_only_witness :
  prepare_body ListGrammar.extract_parameters
    (with_header Header_ContentEncoding "gzip, deflate"
       (with_header Header_ContentLength "10" (new_parser 5)))
  = (false,
     with_total 10 (with_needed 10
       (with_content_encoding [ce_gzip; ce_deflate]
          (with_header Header_ContentEncoding "gzip, deflate"
             (with_header Header_ContentLength "10" (new_parser 5))))),
     body_too_large) /\
  m_headers
    (with_total 10 (with_needed 10
       (with_content_encoding [ce_gzip; ce_deflate]
          (with_header Header_ContentEncoding "gzip, deflate"
             (with_header Header_ContentLength "10" (new_parser 5))))))
  = m_headers (with_header Header_ContentEncoding "gzip, deflate"
                 (with_header Header_ContentLength "10" (new_parser 5))) /\
  (false = true -> body_too_large = success).
Proof.
  assert (prepare_body ListGrammar.extract_parameters
    (with_header Header_ContentEncoding "gzip, deflate"
       (with_header Header_ContentLength "10" (new_parser 5)))
  = (false,
     with_total 10 (with_needed 10
       (with_content_encoding [ce_gzip; ce_deflate]
          (with_header Header_ContentEncoding "gzip, deflate"
             (with_header Header_ContentLength "10" (new_parser 5))))),
     body_too_large)) as Hp by (vm_compute; reflexivity).
  split; [exact Hp |].
  destruct (prepare_body_reads_only ListGrammar.extract_parameters _ _ _ _ Hp)
    as (_ & Hh & _ & _ & Hr & _).
  split; [exact Hh | exact Hr].
Defined.

(** ** The encoding lists of [prepare_body] *)

Lemma encoding_loops_mapped (l : parameter_list) :
  (all_content l ->
   forall v, content_encoding_loop l v = (true, v ++ mapped_content l)) /\
  (all_transfer l ->
   forall v, transfer_encoding_loop l v = (true, v ++ mapped_transfer l)) /\
  (all_content l -> length (mapped_content l) = length l) /\
  (all_transfer l -> length (mapped_transfer l) = length l).
Proof.
  unfold all_content, all_transfer, mapped_content, mapped_transfer.
  induction l as [|param l (IHc & IHt & ILc & ILt)]; simpl.
  - split_and!; intros; by rewrite ?app_nil_r.
  - split_and!; intros H; inversion H as [|? ? Hp Hl]; subst.
    + intros v. destruct (from_string param.1) as [e|]; [| done].
      rewrite (IHc Hl). by rewrite <- app_assoc.
    + intros v. destruct (transfer_encoding_of param.1) as [e|]; [| done].
      rewrite (IHt Hl). by rewrite <- app_assoc.
    + destruct (from_string param.1) as [e|]; [| done]. simpl. f_equal. exact (ILc Hl).
    + destruct (transfer_encoding_of param.1) as [e|]; [| done]. simpl. f_equal.
      exact (ILt Hl).
Qed.

Lemma transfer_encoding_loop_unmapped (l : parameter_list) (v : list transfer_encoding) :
  Exists (fun param => transfer_encoding_of param.1 = None) l ->
  (transfer_encoding_loop l v).1 = false.
Proof.
  revert v. induction l as [|param l IH]; intros v H; [inversion H |].
  simpl. destruct (transfer_encoding_of param.1) eqn:Hp; [| done].
  apply IH. inversion H; subst; [congruence | done].
Qed.

Lemma mapped_transfer_chunked (l : parameter_list) :
  Exists (fun param => param.1 = "chunked") l -> te_chunked ∈ mapped_transfer l.
Proof.
  unfold mapped_transfer. induction 1 as [param l Hp | param l _ IH]; simpl.
  - rewrite Hp. simpl. apply list_elem_of_here.
  - destruct (transfer_encoding_of param.1); [by apply list_elem_of_further | done].
Qed.

Section Encoding_lists.

Variable extract_parameters : string -> parameter_list -> nat * parameter_list.

Lemma content_encoding_block_mapped (p : parser) (l : parameter_list) :
  get_header_as_plist extract_parameters p Header_ContentEncoding [] = (false, l) ->
  all_content l ->
  content_encoding_block extract_parameters p =
    let p1 := with_content_encoding (m_content_encoding p ++ mapped_content l) p in
    if (3 <? length (m_content_encoding p) + length l)%nat
    then Return false p1 unsupported_content_encoding
    else Next p1.
Proof.
  intros Hl Hall. unfold content_encoding_block. rewrite Hl. simpl.
  destruct (encoding_loops_mapped l) as (Hc & _ & Hlen & _).
  rewrite (Hc Hall). simpl. by rewrite length_app, (Hlen Hall).
Qed.

Lemma transfer_encoding_block_mapped (p : parser) (l : parameter_list) :
  get_header_as_plist extract_parameters p Header_TransferEncoding [] = (false, l) ->
  l <> [] -> all_transfer l ->
  transfer_encoding_block extract_parameters p =
    let p1 := with_transfer_encoding (m_transfer_encoding p ++ mapped_transfer l) p in
    if (3 <? length (m_transfer_encoding p) + length l)%nat
    then Return false p1 unsupported_transfer_encoding
    else if has_chunked (m_transfer_encoding p ++ mapped_transfer l)
    then Return true p1 success
    else Next p1.
Proof.
  intros Hl Hne Hall. unfold transfer_encoding_block. rewrite Hl. simpl.
  rewrite bool_decide_eq_false_2 by done. simpl.
  destruct (encoding_loops_mapped l) as (_ & Ht & _ & Hlen).
  rewrite (Ht Hall). simpl. by rewrite length_app, (Hlen Hall).
Qed.

(** Chunked framing takes precedence over Content-Length.  Once the
    Content-Encoding block has passed with no error, when the
    Transfer-Encoding header parses to tokens that all map, with [chunked]
    among them and at most 3 entries in all, [prepare_body] reports that a
    body is expected, with no error, and does not consult Content-Length:
    [bytes_needed] and [bytes_total] stay as they were, whatever that header
    holds. *)
Theorem prepare_body_chunked (p p1 : parser) (te_list : parameter_list) :
  content_encoding_block extract_parameters p = Next p1 ->
  get_header_as_plist extract_parameters p1 Header_TransferEncoding [] = (false, te_list) ->
  all_transfer te_list ->
  Exists (fun param => param.1 = "chunked") te_list ->
  (length (m_transfer_encoding p1) + length te_list <= 3)%nat ->
  exists p',
    prepare_body extract_parameters p = (true, p', success) /\
    m_transfer_encoding p' = m_transfer_encoding p ++ mapped_transfer te_list /\
    te_chunked ∈ m_transfer_encoding p' /\
    m_body_bytes_needed p' = m_body_bytes_needed p /\
    m_body_bytes_total p' = m_body_bytes_total p.
Proof.
  intros H1 Hl Hall Hch Hlen.
  pose proof (content_encoding_block_frame extract_parameters p) as [F1 Ft1].
  rewrite H1 in F1, Ft1. simpl in F1, Ft1.
  destruct F1 as (_ & _ & _ & En & Et & _).
  assert (te_list <> []) as Hne by (intros ->; inversion Hch).
  unfold prepare_body. rewrite H1. simpl.
  rewrite (transfer_encoding_block_mapped p1 te_list Hl Hne Hall). simpl.
  destruct (Nat.ltb_spec 3 (length (m_transfer_encoding p1) + length te_list)); [lia |].
  assert (te_chunked ∈ m_transfer_encoding p1 ++ mapped_transfer te_list) as Hin
    by (apply elem_of_app; right; by apply mapped_transfer_chunked).
  unfold has_chunked. rewrite bool_decide_eq_true_2 by done. simpl.
  eexists. split; [reflexivity |]. simpl. rewrite <- Ft1. by split_and!.
Qed.

(** A Transfer-Encoding token outside gzip, x-gzip, compress, deflate and
    chunked makes [prepare_body] fail with [unknown_transfer_encoding], once
    the Content-Encoding block has passed; the comparison is case
    sensitive. *)
Theorem prepare_body_unmapped_transfer_encoding (p p1 : parser) (te_list : parameter_list) :
  content_encoding_block extract_parameters p = Next p1 ->
  get_header_as_plist extract_parameters p1 Header_TransferEncoding [] = (false, te_list) ->
  Exists (fun param => transfer_encoding_of param.1 = None) te_list ->
  (exists p', prepare_body extract_parameters p = (false, p', unknown_transfer_encoding)) /\
  (forall token,
     transfer_encoding_of token = None <->
     token ∉ ["gzip"; "x-gzip"; "compress"; "deflate"; "chunked"]).
Proof.
  intros H1 Hl Hex. split.
  2: { intros token. unfold transfer_encoding_of.
       rewrite !not_elem_of_cons.
       destruct (String.eqb_spec token "gzip"); [simpl; intuition congruence |].
       destruct (String.eqb_spec token "x-gzip"); [simpl; intuition congruence |].
       destruct (String.eqb_spec token "compress"); [simpl; intuition congruence |].
       destruct (String.eqb_spec token "deflate"); [simpl; intuition congruence |].
       destruct (String.eqb_spec token "chunked"); [simpl; intuition congruence |].
       simpl. split; [| done]. intros _. split_and!; try done. apply not_elem_of_nil. }
  assert (te_list <> []) as Hne by (intros ->; inversion Hex).
  unfold prepare_body. rewrite H1. simpl.
  unfold transfer_encoding_block. rewrite Hl. simpl.
  rewrite bool_decide_eq_false_2 by done. simpl.
  pose proof (transfer_encoding_loop_unmapped te_list (m_transfer_encoding p1) Hex) as Hloop.
  destruct (transfer_encoding_loop te_list (m_transfer_encoding p1)) as [ok v].
  simpl in Hloop. subst ok. simpl. eauto.
Qed.

(** The guard on the number of encodings counts what the parser has
    accumulated together with what the header adds.  When every
    Content-Encoding token maps and the total is above 3, [prepare_body]
    fails with [unsupported_content_encoding].  Once the Content-Encoding
    block has passed with no error, when every token of a Transfer-Encoding
    list that is not empty maps and the total is above 3, [prepare_body]
    fails with [unsupported_transfer_encoding], also when [chunked] is among
    the tokens. *)
Theorem prepare_body_too_many_encodings (p : parser) (l : parameter_list) :
  (get_header_as_plist extract_parameters p Header_ContentEncoding [] = (false, l) ->
   all_content l ->
   (3 < length (m_content_encoding p) + length l)%nat ->
   prepare_body extract_parameters p
   = (false, with_content_encoding (m_content_encoding p ++ mapped_content l) p,
      unsupported_content_encoding)) /\
  (forall p0,
     content_encoding_block extract_parameters p0 = Next p ->
     get_header_as_plist extract_parameters p Header_TransferEncoding [] = (false, l) ->
     l <> [] -> all_transfer l ->
     (3 < length (m_transfer_encoding p) + length l)%nat ->
     prepare_body extract_parameters p0
     = (false, with_transfer_encoding (m_transfer_encoding p ++ mapped_transfer l) p,
        unsupported_transfer_encoding)).
Proof.
  split.
  - intros Hl Hall Hlen. unfold prepare_body.
    rewrite (content_encoding_block_mapped p l Hl Hall). simpl.
    by destruct (Nat.ltb_spec 3 (length (m_content_encoding p) + length l)); [| lia].
  - intros p0 H0 Hl Hne Hall Hlen.
    unfold prepare_body. rewrite H0. simpl.
    rewrite (transfer_encoding_block_mapped p l Hl Hne Hall). simpl.
    by destruct (Nat.ltb_spec 3 (length (m_transfer_encoding p) + length l)); [| lia].
Qed.

Lemma get_header_as_plist_headers (p q : parser) (key : string) :
  m_headers q = m_headers p ->
  get_header_as_plist extract_parameters q key []
  = get_header_as_plist extract_parameters p key [].
Proof. unfold get_header_as_plist. by intros ->. Qed.

(** [prepare_body] is not made to be called twice on one message: the
    content encodings of the first call stay in the list, and the second
    call adds them again.  When the two rounds bring the list above 3
    entries, as with two encodings on a new parser, the second call fails
    with [unsupported_content_encoding], whatever the first call reported. *)
Theorem prepare_body_twice (p : parser) (l : parameter_list) :
  get_header_as_plist extract_parameters p Header_ContentEncoding [] = (false, l) ->
  all_content l ->
  (3 < length (m_content_encoding p) + 2 * length l)%nat ->
  exists r p1 ec p2,
    prepare_body extract_parameters p = (r, p1, ec) /\
    m_content_encoding p1 = m_content_encoding p ++ mapped_content l /\
    prepare_body extract_parameters p1 = (false, p2, unsupported_content_encoding).
Proof.
  intros Hl Hall Hlen.
  destruct (prepare_body extract_parameters p) as [[r p1] ec] eqn:Hp.
  exists r, p1, ec.
  assert (m_headers p1 = m_headers p) as Hh.
  { pose proof (prepare_body_frame extract_parameters p) as (_ & H & _).
    by rewrite Hp in H. }
  assert (m_content_encoding p1 = m_content_encoding p ++ mapped_content l) as Hc.
  { revert Hp. unfold prepare_body.
    rewrite (content_encoding_block_mapped p l Hl Hall). simpl.
    destruct (3 <? _)%nat; simpl; [by intros [= <- <- <-] |].
    set (q := with_content_encoding _ p).
    pose proof (transfer_encoding_block_frame extract_parameters q) as [_ Fc].
    destruct (transfer_encoding_block extract_parameters q) as [r2 p2 ec2 | p2]; simpl in *.
    - by intros [= <- <- <-].
    - destruct (content_length_block_frame p2) as (_ & _ & _ & _ & Ec & _).
      intros Hcl. rewrite Hcl in Ec. simpl in Ec. congruence. }
  eexists. split; [reflexivity |]. split; [exact Hc |].
  unfold prepare_body.
  rewrite (content_encoding_block_mapped p1 l); [| by rewrite (get_header_as_plist_headers p) | done].
  simpl. destruct (Nat.ltb_spec 3 (length (m_content_encoding p1) + length l)) as [_ | Hle].
  - reflexivity.
  - rewrite Hc, length_app in Hle.
    destruct (encoding_loops_mapped l) as (_ & _ & Hm & _). rewrite (Hm Hall) in Hle. lia.
Qed.

End Encoding_lists.

Lemma prepare_body_chunked_witness :
  (content_encoding_block ListGrammar.extract_parameters
     (with_header Header_TransferEncoding "gzip, chunked"
        (with_header Header_ContentLength "12abc" (new_parser 5)))
   = Next (with_header Header_TransferEncoding "gzip, chunked"
             (with_header Header_ContentLength "12abc" (new_parser 5))) /\
   get_header_as_plist ListGrammar.extract_parameters
     (with_header Header_TransferEncoding "gzip, chunked"
        (with_header Header_ContentLength "12abc" (new_parser 5)))
     Header_TransferEncoding []
   = (false, [("gzip", ∅); ("chunked", ∅)])) /\
  exists p',
    prepare_body ListGrammar.extract_parameters
      (with_header Header_TransferEncoding "gzip, chunked"
         (with_header Header_ContentLength "12abc" (new_parser 5)))
    = (true, p', success) /\
    m_transfer_encoding p' = [] ++ mapped_transfer [("gzip", ∅); ("chunked", ∅)] /\
    te_chunked ∈ m_transfer_encoding p' /\
    m_body_bytes_needed p' = 0 /\ m_body_bytes_total p' = 0.
Proof.
  set (p := with_header Header_TransferEncoding "gzip, chunked"
              (with_header Header_ContentLength "12abc" (new_parser 5))).
  assert (content_encoding_block ListGrammar.extract_parameters p = Next p) as H1
    by (vm_compute; reflexivity).
  assert (get_header_as_plist ListGrammar.extract_parameters p Header_TransferEncoding []
          = (false, [("gzip", ∅); ("chunked", ∅)])) as Hl by (vm_compute; reflexivity).
  split; [by split |].
  refine (prepare_body_chunked ListGrammar.extract_parameters p p _ H1 Hl _ _ _).
  - repeat constructor; discriminate.
  - apply Exists_cons_tl, Exists_cons_hd. reflexivity.
  - simpl. lia.
Defined.

Lemma prepare_body_unmapped_transfer_encoding_witness :
  (content_encoding_block ListGrammar.extract_parameters
     (with_header Header_TransferEncoding "Chunked" (new_parser 0))
   = Next (with_header Header_TransferEncoding "Chunked" (new_parser 0)) /\
   get_header_as_plist ListGrammar.extract_parameters
     (with_header Header_TransferEncoding "Chunked" (new_parser 0))
     Header_TransferEncoding []
   = (false, [("Chunked", ∅)])) /\
  exists p',
    prepare_body ListGrammar.extract_parameters
      (with_header Header_TransferEncoding "Chunked" (new_parser 0))
    = (false, p', unknown_transfer_encoding).
Proof.
  set (p := with_header Header_TransferEncoding "Chunked" (new_parser 0)).
  assert (content_encoding_block ListGrammar.extract_parameters p = Next p) as H1
    by (vm_compute; reflexivity).
  assert (get_header_as_plist ListGrammar.extract_parameters p Header_TransferEncoding []
          = (false, [("Chunked", ∅)])) as Hl by (vm_compute; reflexivity).
  split; [by split |].
  refine (proj1 (prepare_body_unmapped_transfer_encoding
                   ListGrammar.extract_parameters p p _ H1 Hl _)).
  apply Exists_cons_hd. reflexivity.
Defined.

Lemma prepare_body_too_many_encodings_witness :
  (get_header_as_plist ListGrammar.extract_parameters
     (with_header Header_ContentEncoding "gzip, gzip, deflate, compress" (new_parser 0))
     Header_ContentEncoding []
   = (false, [("gzip", ∅); ("gzip", ∅); ("deflate", ∅); ("compress", ∅)])) /\
  prepare_body ListGrammar.extract_parameters
    (with_header Header_ContentEncoding "gzip, gzip, deflate, compress" (new_parser 0))
  = (false,
     with_content_encoding
       ([] ++ mapped_content [("gzip", ∅); ("gzip", ∅); ("deflate", ∅); ("compress", ∅)])
       (with_header Header_ContentEncoding "gzip, gzip, deflate, compress" (new_parser 0)),
     unsupported_content_encoding).
Proof.
  set (p := with_header Header_ContentEncoding "gzip, gzip, deflate, compress" (new_parser 0)).
  assert (get_header_as_plist ListGrammar.extract_parameters p Header_ContentEncoding []
          = (false, [("gzip", ∅); ("gzip", ∅); ("deflate", ∅); ("compress", ∅)])) as Hl
    by (vm_compute; reflexivity).
  split; [exact Hl |].
  refine (proj1 (prepare_body_too_many_encodings ListGrammar.extract_parameters p _) Hl _ _).
  - repeat constructor; discriminate.
  - simpl. lia.
Defined.

Lemma prepare_body_twice_witness :
  (get_header_as_plist ListGrammar.extract_parameters
     (with_header Header_ContentEncoding "gzip, deflate" (new_parser 0))
     Header_ContentEncoding []
   = (false, [("gzip", ∅); ("deflate", ∅)])) /\
  exists r p1 ec p2,
    prepare_body ListGrammar.extract_parameters
      (with_header Header_ContentEncoding "gzip, deflate" (new_parser 0)) = (r, p1, ec) /\
    m_content_encoding p1 = [] ++ mapped_content [("gzip", ∅); ("deflate", ∅)] /\
    prepare_body ListGrammar.extract_parameters p1
    = (false, p2, unsupported_content_encoding).
Proof.
  set (p := with_header Header_ContentEncoding "gzip, deflate" (new_parser 0)).
  assert (get_header_as_plist ListGrammar.extract_parameters p Header_ContentEncoding []
          = (false, [("gzip", ∅); ("deflate", ∅)])) as Hl by (vm_compute; reflexivity).
  split; [exact Hl |].
  refine (prepare_body_twice ListGrammar.extract_parameters p _ Hl _ _).
  - repeat constructor; discriminate.
  - simpl. lia.
Defined.

(** ** More on strings *)

Lemma take_drop (n : nat) (s : string) : take n s +:+ drop n s = s.
Proof.
  revert s. induction n as [|n IH]; intros [|c t]; simpl; try done.
  by rewrite IH.
Qed.

Lemma length_take (n : nat) (s : string) :
  String.length (take n s) = Nat.min n (String.length s).
Proof.
  revert s. induction n as [|n IH]; intros [|c t]; simpl; try done.
  by rewrite IH.
Qed.

Lemma length_drop (n : nat) (s : string) :
  String.length (drop n s) = (String.length s - n)%nat.
Proof.
  revert s. induction n as [|n IH]; intros [|c t]; simpl; try done.
Qed.

Lemma drop_drop (n m : nat) (s : string) : drop n (drop m s) = drop (m + n) s.
Proof.
  revert s. induction m as [|m IH]; intros s; simpl; [done |].
  destruct s as [|c t]; [by destruct n | apply IH].
Qed.

Lemma take_append_split (n : nat) (a b : string) :
  take n (a +:+ b) = take n a +:+ take (n - String.length a) b.
Proof.
  revert n. induction a as [|c a IH]; intros n; simpl.
  - rewrite Nat.sub_0_r. by destruct n.
  - destruct n as [|n]; simpl; [done | by rewrite IH].
Qed.

Lemma size_append (a b : string) : size (a +:+ b) = size a + size b.
Proof. unfold size. rewrite length_append. lia. Qed.

Lemma size_nonneg (a : string) : 0 <= size a.
Proof. unfold size. lia. Qed.

(** Where [std::search] stops short of the end, the needle starts. *)
Lemma search_found (hay needle : string) :
  search hay needle <> String.length hay ->
  exists post, drop (search hay needle) hay = needle +:+ post.
Proof.
  induction hay as [|c t IH]; simpl.
  - destruct (starts_with needle EmptyString) eqn:Hs; [| done].
    intros _. by apply starts_with_split.
  - destruct (starts_with needle (String c t)) eqn:Hs.
    + intros _. by apply starts_with_split.
    + intros Hn. apply IH. lia.
Qed.

(** In front of a CRLF, a prefix without a carriage return holds no earlier
    CRLF. *)
Lemma search_crlf_after (pre post : string) :
  Forall (fun c => c <> CR) (list_ascii_of_string pre) ->
  search (pre +:+ http_crlf +:+ post) http_crlf = String.length pre.
Proof.
  induction pre as [|c t IH]; intros Hpre; [done |].
  inversion Hpre as [|? ? Hc Ht]; subst.
  change (search (String c t +:+ http_crlf +:+ post) http_crlf)
    with (if starts_with http_crlf (String c (t +:+ http_crlf +:+ post))
          then 0%nat else S (search (t +:+ http_crlf +:+ post) http_crlf)).
  assert (starts_with http_crlf (String c (t +:+ http_crlf +:+ post)) = false) as ->.
  { change (starts_with http_crlf (String c (t +:+ http_crlf +:+ post)))
      with (if Ascii.eqb CR c
            then starts_with (str1 LF) (t +:+ http_crlf +:+ post) else false).
    destruct (Ascii.eqb_spec CR c); [congruence | done]. }
  by rewrite (IH Ht).
Qed.

(** ** The return contract of [process_body] *)

Lemma copy_bytes_spec (p : parser) (buf : string) :
  0 <= m_body_bytes_needed p ->
  let k := Z.min (m_body_bytes_needed p) (size buf) in
  0 <= k <= size buf /\
  size (take (Z.to_nat k) buf) = k /\
  (copy_bytes p buf).1.1 = k /\
  m_body (copy_bytes p buf).1.2 = m_body p +:+ take (Z.to_nat k) buf /\
  m_body_bytes_needed (copy_bytes p buf).1.2 = m_body_bytes_needed p - k /\
  m_body_bytes_total (copy_bytes p buf).1.2 = m_body_bytes_total p.
Proof.
  intros Hn k. pose proof (size_nonneg buf).
  split; [lia |]. split; [| done].
  unfold size in *. rewrite length_take. lia.
Qed.

(** Closes the parts of a result of [process_body] once its pieces are
    named. *)
Ltac used_goal :=
  split_and!; simpl; rewrite ?append_empty_r, ?take_drop; try done;
  try (unfold size in *; simpl; lia).

(** What [process_body] reports is what it used of the buffer.  The bytes it
    appends to the body are a piece of the buffer, the bytes in front of that
    piece are framing that it skips, and the count it returns is the length
    of both together: it never exceeds the length of the buffer, and the body
    only grows. *)
Theorem process_body_reports_what_it_used (p : parser) (buf : string) (ec : error_code) :
  size_t_range (m_body_bytes_needed p) -> size buf <= ULONG_MAX ->
  exists n p' ec' framing bytes rest,
    process_body p buf ec = Some (n, p', ec') /\
    buf = framing +:+ bytes +:+ rest /\
    m_body p' = m_body p +:+ bytes /\
    n = size framing + size bytes /\
    0 <= n <= size buf /\
    (has_chunked (m_transfer_encoding p) = false -> framing = EmptyString).
Proof.
  intros [Hn _] Hlen.
  assert (forall a b c : string, size (a +:+ b +:+ c) = size a + size b + size c) as Hsz
    by (intros; rewrite !size_append; lia).
  assert (forall q, 0 <= m_body_bytes_needed q -> m_body q = m_body p ->
            exists n p' ec' bytes rest,
              Some (copy_bytes q buf) = Some (n, p', ec') /\
              buf = EmptyString +:+ bytes +:+ rest /\
              m_body p' = m_body p +:+ bytes /\
              n = size EmptyString + size bytes /\ 0 <= n <= size buf) as Hcopy.
  { intros q Hq Hb. destruct (copy_bytes_spec q buf Hq) as (Hk & Hs & Hr & Hbody & _).
    destruct (copy_bytes q buf) as [[n p'] ec']. simpl in *.
    exists n, p', ec', (take (Z.to_nat n) buf), (drop (Z.to_nat n) buf).
    subst n. split; [done |]. simpl. rewrite take_drop, Hs, Hbody, Hb.
    split_and!; try done; lia. }
  destruct (decide (buf = EmptyString)) as [-> | Hne].
  { exists 0, p, ec, EmptyString, EmptyString, EmptyString.
    used_goal. }
  destruct (has_chunked (m_transfer_encoding p)) eqn:Hc.
  - destruct (decide (m_body_bytes_needed p = 0)) as [Hz | Hz].
    + rewrite (process_body_new_chunk p buf ec Hc Hz Hne).
      set (nl := search buf http_crlf).
      set (hex := take nl buf).
      set (p2 := chunk_started p (strtoul hex 16).1).
      set (tail := drop (nl + 2) buf).
      pose proof (size_nonneg buf) as Hb0.
      destruct (Nat.eqb_spec nl (String.length buf)) as [_ | Hfound].
      { exists 0, p, invalid_format, EmptyString, EmptyString, buf.
        used_goal. }
      destruct (negb (_ =? _)%nat).
      { exists 0, p2, invalid_format, EmptyString, EmptyString, buf.
        used_goal. }
      destruct (negb _ && _).
      { exists 0, p2, body_too_large, EmptyString, EmptyString, buf.
        used_goal. }
      destruct (_ =? 0).
      { exists (size buf), p2, ec, buf, EmptyString, EmptyString.
        used_goal. }
      destruct (search_found buf http_crlf Hfound) as [post Hpost]. fold nl in Hpost.
      assert (nl + 2 <= String.length buf)%nat as Hnl.
      { pose proof (length_drop nl buf) as Hd. rewrite Hpost, length_append in Hd.
        simpl in Hd. lia. }
      assert (size (take (nl + 2) buf) = Z.of_nat (nl + 2)) as Hpre
        by (unfold size; rewrite length_take; lia).
      assert (size tail = size buf - Z.of_nat (nl + 2)) as Htail
        by (unfold size, tail; rewrite length_drop; lia).
      destruct (size tail =? 0) eqn:Ht0.
      { exists (wrap (Z.of_nat (nl + 2) + 0)), p2, ec, (take (nl + 2) buf),
          EmptyString, tail.
        rewrite wrap_small by (unfold size_t_range, size in *; lia).
        split_and!; try done.
        - simpl. unfold tail. by rewrite take_drop.
        - by rewrite append_empty_r.
        - rewrite Hpre. unfold size. simpl. lia.
        - lia.
        - unfold size in *. lia. }
      assert (0 <= m_body_bytes_needed p2) as Hp2
        by (pose proof (strtoul_range hex 16 ltac:(done)) as [? _]; done).
      destruct (copy_bytes_spec p2 tail Hp2) as (Hk & Hs & Hr & Hbody & _).
      set (k := Z.min (m_body_bytes_needed p2) (size tail)) in *.
      exists (wrap (Z.of_nat (nl + 2) + (copy_bytes p2 tail).1.1)),
        (copy_bytes p2 tail).1.2, success,
        (take (nl + 2) buf), (take (Z.to_nat k) tail), (drop (Z.to_nat k) tail).
      rewrite Hr, wrap_small by (unfold size_t_range; lia).
      split_and!; try done.
      * by rewrite take_drop, take_drop.
      * rewrite Hpre, Hs. lia.
      * lia.
      * lia.
    + rewrite (process_body_in_chunk p buf ec Hc Hz Hne).
      destruct (Hcopy p Hn eq_refl) as (n & p' & ec' & bytes & rest & H1 & H2 & H3 & H4 & H5).
      exists n, p', ec', EmptyString, bytes, rest. split_and!; try done; lia.
  - rewrite (process_body_plain p buf ec Hc Hne).
    destruct (Hcopy p Hn eq_refl) as (n & p' & ec' & bytes & rest & H1 & H2 & H3 & H4 & H5).
    exists n, p', ec', EmptyString, bytes, rest. split_and!; try done; lia.
Qed.

Lemma process_body_reports_what_it_used_witness :
  (size_t_range (m_body_bytes_needed (with_transfer_encoding [te_chunked] (new_parser 0))) /\
   size ("3" +:+ http_crlf +:+ "abcdef") <= ULONG_MAX) /\
  exists n p' ec' framing bytes rest,
    process_body (with_transfer_encoding [te_chunked] (new_parser 0))
      ("3" +:+ http_crlf +:+ "abcdef") success = Some (n, p', ec') /\
    "3" +:+ http_crlf +:+ "abcdef" = framing +:+ bytes +:+ rest /\
    m_body p' = m_body (with_transfer_encoding [te_chunked] (new_parser 0)) +:+ bytes /\
    n = size framing + size bytes /\
    0 <= n <= size ("3" +:+ http_crlf +:+ "abcdef") /\
    (has_chunked (m_transfer_encoding (with_transfer_encoding [te_chunked] (new_parser 0)))
     = false -> framing = EmptyString).
Proof.
  assert (size_t_range 0) as Hr by (by compute).
  assert (size ("3" +:+ http_crlf +:+ "abcdef") <= ULONG_MAX) as Hs by (by compute).
  split; [by split |].
  exact (process_body_reports_what_it_used
           (with_transfer_encoding [te_chunked] (new_parser 0))
           ("3" +:+ http_crlf +:+ "abcdef") success Hr Hs).
Defined.

(** ** Plain framing over a split stream *)

Lemma take_min (n : nat) (s : string) : take (Nat.min n (String.length s)) s = take n s.
Proof.
  revert s. induction n as [|n IH]; intros [|c t]; simpl; try done.
  by rewrite IH.
Qed.

(** In plain framing the body does not depend on how the stream is cut into
    buffers: after any sequence of buffers, empty ones included, the body is
    the old body followed by the first [bytes_needed] bytes of the stream,
    and [bytes_needed] has gone down by the number of bytes stored. *)
Theorem plain_body_any_split (p : parser) (bufs : list string) :
  has_chunked (m_transfer_encoding p) = false ->
  0 <= m_body_bytes_needed p ->
  exists p',
    feed p bufs = Some p' /\
    m_body p' = m_body p +:+ take (Z.to_nat (m_body_bytes_needed p)) (concat_all bufs) /\
    m_body_bytes_needed p'
    = m_body_bytes_needed p - Z.min (m_body_bytes_needed p) (size (concat_all bufs)).
Proof.
  revert p. induction bufs as [|buf bufs IH]; intros p Hc Hn; simpl.
  - exists p. split; [done |]. split.
    + destruct (Z.to_nat _); simpl; by rewrite append_empty_r.
    + change (size EmptyString) with 0. lia.
  - destruct (decide (buf = EmptyString)) as [-> | Hne].
    + change (process_body p EmptyString success) with (Some (0, p, success)).
      by apply IH.
    + rewrite (process_body_plain p buf success Hc Hne).
      destruct (copy_bytes_spec p buf Hn) as (Hk & Hs & _ & Hbody & Hneed & _).
      set (k := Z.min (m_body_bytes_needed p) (size buf)) in *.
      destruct (copy_bytes p buf) as [[n p1] ec1] eqn:Hcopy. simpl in Hbody, Hneed.
      assert (has_chunked (m_transfer_encoding p1) = false) as Hc1.
      { unfold copy_bytes in Hcopy. injection Hcopy as _ <- _. done. }
      destruct (IH p1 Hc1 ltac:(lia)) as (p' & Hf & Hb' & Hn').
      exists p'. split; [done |]. split.
      * rewrite Hb', Hbody, Hneed, append_assoc. f_equal.
        rewrite take_append_split.
        assert (Z.to_nat k = Nat.min (Z.to_nat (m_body_bytes_needed p)) (String.length buf))
          as -> by (unfold k, size; lia).
        rewrite take_min. f_equal. f_equal. unfold k, size. lia.
      * rewrite Hn', Hneed, size_append. pose proof (size_nonneg (concat_all bufs)).
        unfold k. lia.
Qed.

Lemma plain_body_any_split_witness :
  (has_chunked (m_transfer_encoding (with_needed 5 (new_parser 0))) = false /\
   0 <= m_body_bytes_needed (with_needed 5 (new_parser 0))) /\
  exists p',
    feed (with_needed 5 (new_parser 0)) ["h"; EmptyString; "el"; "lo, world"] = Some p' /\
    m_body p'
    = m_body (with_needed 5 (new_parser 0))
      +:+ take (Z.to_nat (m_body_bytes_needed (with_needed 5 (new_parser 0))))
            (concat_all ["h"; EmptyString; "el"; "lo, world"]) /\
    m_body_bytes_needed p'
    = m_body_bytes_needed (with_needed 5 (new_parser 0))
      - Z.min (m_body_bytes_needed (with_needed 5 (new_parser 0)))
          (size (concat_all ["h"; EmptyString; "el"; "lo, world"])).
Proof.
  split; [split; [reflexivity | simpl; lia] |].
  exact (plain_body_any_split (with_needed 5 (new_parser 0))
           ["h"; EmptyString; "el"; "lo, world"] eq_refl ltac:(simpl; lia)).
Defined.

(** ** Chunks *)

(** A chunk whose size line arrives whole.  For a size line of hexadecimal
    digits that [strtoul] reads in full as a size above 0 within the budget,
    the call skips the line and its CRLF, stores up to that many of the
    bytes that follow and leaves the rest of the chunk in [bytes_needed];
    bytes past the end of the chunk are not used. *)
Theorem process_body_chunk (p : parser) (hex data : string) (v : Z) (ec : error_code) :
  has_chunked (m_transfer_encoding p) = true ->
  m_body_bytes_needed p = 0 ->
  Forall (fun c => c <> CR) (list_ascii_of_string hex) ->
  strtoul hex 16 = (v, String.length hex) -> 0 < v ->
  m_body_bytes_max p = 0 \/ wrap (m_body_bytes_total p + v) <= m_body_bytes_max p ->
  size (hex +:+ http_crlf +:+ data) <= ULONG_MAX ->
  exists p' ec',
    process_body p (hex +:+ http_crlf +:+ data) ec
    = Some (size hex + 2 + Z.min v (size data), p', ec') /\
    m_body p' = m_body p +:+ take (Z.to_nat (Z.min v (size data))) data /\
    m_body_bytes_needed p' = v - Z.min v (size data) /\
    m_body_bytes_total p' = wrap (m_body_bytes_total p + v) /\
    (data <> EmptyString -> ec' = success).
Proof.
  intros Hc Hz Hhex Hv Hpos Hbud Hlen.
  assert (hex +:+ http_crlf +:+ data <> EmptyString) as Hne
    by (destruct hex; discriminate).
  rewrite (process_body_new_chunk p _ ec Hc Hz Hne).
  rewrite (search_crlf_after hex data Hhex). cbv zeta.
  assert (take (String.length hex) (hex +:+ http_crlf +:+ data) = hex) as ->
    by apply take_append.
  assert (drop (String.length hex + 2) (hex +:+ http_crlf +:+ data) = data) as ->.
  { rewrite <- drop_drop, drop_append. reflexivity. }
  rewrite Hv. simpl fst. simpl snd.
  assert ((String.length hex =? String.length (hex +:+ http_crlf +:+ data))%nat = false)
    as -> by (apply Nat.eqb_neq; rewrite !length_append; simpl; lia).
  rewrite Nat.eqb_refl. simpl negb. cbv iota.
  set (p2 := chunk_started p v).
  assert (negb (m_body_bytes_max p =? 0) && (m_body_bytes_max p <? m_body_bytes_total p2)
          = false) as ->.
  { destruct Hbud as [-> | Hle]; [done |].
    apply andb_false_iff. right. by apply Z.ltb_ge. }
  assert ((v =? 0) = false) as -> by (apply Z.eqb_neq; lia).
  assert (0 <= m_body_bytes_needed p2) as Hp2 by (simpl; lia).
  destruct (copy_bytes_spec p2 data Hp2) as (Hk & Hs & Hr & Hbody & Hneed & Htot).
  simpl in Hk, Hs, Hr, Hbody, Hneed, Htot.
  pose proof (size_nonneg hex) as Hh0.
  rewrite !size_append in Hlen. change (size http_crlf) with 2 in Hlen.
  destruct (size data =? 0) eqn:Hd0.
  - apply Z.eqb_eq in Hd0. exists p2, ec.
    rewrite Z.min_r by lia. rewrite Hd0. simpl.
    rewrite wrap_small by (unfold size_t_range, size in *; lia).
    split; [f_equal; f_equal; f_equal; unfold size; lia |].
    split; [by rewrite append_empty_r |]. split; [lia |]. split; [done |].
    intros Hdata. apply size_nonzero in Hdata. apply Z.eqb_neq in Hdata. lia.
  - exists (copy_bytes p2 data).1.2, success.
    change ((copy_bytes p2 data).1.1) with (Z.min v (size data)).
    rewrite wrap_small by (unfold size_t_range, size in *; lia).
    split; [f_equal; f_equal; f_equal; unfold size; lia |].
    simpl. by split_and!.
Qed.

Lemma process_body_chunk_witness :
  (has_chunked (m_transfer_encoding (with_transfer_encoding [te_chunked] (new_parser 64)))
   = true /\
   Forall (fun c => c <> CR) (list_ascii_of_string "1a") /\
   strtoul "1a" 16 = (26, String.length "1a") /\ 0 < 26 /\
   size ("1a" +:+ http_crlf +:+ "abcdefghij") <= ULONG_MAX) /\
  exists p' ec',
    process_body (with_transfer_encoding [te_chunked] (new_parser 64))
      ("1a" +:+ http_crlf +:+ "abcdefghij") success
    = Some (size "1a" + 2 + Z.min 26 (size "abcdefghij"), p', ec') /\
    m_body p'
    = m_body (with_transfer_encoding [te_chunked] (new_parser 64))
      +:+ take (Z.to_nat (Z.min 26 (size "abcdefghij"))) "abcdefghij" /\
    m_body_bytes_needed p' = 26 - Z.min 26 (size "abcdefghij") /\
    m_body_bytes_total p'
    = wrap (m_body_bytes_total (with_transfer_encoding [te_chunked] (new_parser 64)) + 26) /\
    ("abcdefghij" <> EmptyString -> ec' = success).
Proof.
  assert (Forall (fun c => c <> CR) (list_ascii_of_string "1a")) as Hhex
    by (repeat constructor; discriminate).
  assert (size ("1a" +:+ http_crlf +:+ "abcdefghij") <= ULONG_MAX) as Hs by (by compute).
  split; [split_and!; try done; reflexivity |].
  refine (process_body_chunk (with_transfer_encoding [te_chunked] (new_parser 64))
            "1a" "abcdefghij" 26 success eq_refl eq_refl Hhex eq_refl _ _ Hs).
  - lia.
  - right. by compute.
Defined.

(** The size line of a chunk has to arrive whole.  At a chunk boundary, a
    buffer that is not empty and holds no CRLF, such as the first digits of
    a size line or a lone carriage return, fails with [invalid_format];
    nothing is consumed and the parser is left as it was. *)
Theorem process_body_size_line_cut (p : parser) (buf : string) (ec : error_code) :
  has_chunked (m_transfer_encoding p) = true ->
  m_body_bytes_needed p = 0 ->
  buf <> EmptyString ->
  (forall pre post, buf <> pre +:+ http_crlf +:+ post) ->
  process_body p buf ec = Some (0, p, invalid_format).
Proof.
  intros Hc Hz Hne Hno.
  rewrite (process_body_new_chunk p buf ec Hc Hz Hne).
  by rewrite (search_absent _ _ Hno), Nat.eqb_refl.
Qed.

Lemma process_body_size_line_cut_witness :
  (has_chunked (m_transfer_encoding (with_transfer_encoding [te_chunked] (new_parser 0)))
   = true /\
   (forall pre post, "1a" +:+ str1 CR <> pre +:+ http_crlf +:+ post)) /\
  process_body (with_transfer_encoding [te_chunked] (new_parser 0))
    ("1a" +:+ str1 CR) success
  = Some (0, with_transfer_encoding [te_chunked] (new_parser 0), invalid_format).
Proof.
  assert (forall pre post, "1a" +:+ str1 CR <> pre +:+ http_crlf +:+ post) as Hno
    by (apply search_present; [discriminate | reflexivity]).
  split; [by split |].
  exact (process_body_size_line_cut (with_transfer_encoding [te_chunked] (new_parser 0))
           ("1a" +:+ str1 CR) success eq_refl eq_refl ltac:(discriminate) Hno).
Defined.

(** The last chunk.  A size line that [strtoul] reads in full as 0 makes the
    call report the whole buffer as consumed, with whatever follows the line
    (trailers, or bytes of a next message) dropped and the incoming error
    code passed on.  The parser is left exactly as it was, so nothing in it
    records that the body has ended. *)
Theorem process_body_last_chunk (p : parser) (hex rest : string) (ec : error_code) :
  has_chunked (m_transfer_encoding p) = true ->
  m_body_bytes_needed p = 0 ->
  Forall (fun c => c <> CR) (list_ascii_of_string hex) ->
  strtoul hex 16 = (0, String.length hex) ->
  size_t_range (m_body_bytes_total p) -> within_budget p ->
  process_body p (hex +:+ http_crlf +:+ rest) ec
  = Some (size (hex +:+ http_crlf +:+ rest), p, ec).
Proof.
  intros Hc Hz Hhex Hv Hr Hbud.
  assert (hex +:+ http_crlf +:+ rest <> EmptyString) as Hne
    by (destruct hex; discriminate).
  rewrite (process_body_new_chunk p _ ec Hc Hz Hne).
  rewrite (search_crlf_after hex rest Hhex). cbv zeta.
  assert (take (String.length hex) (hex +:+ http_crlf +:+ rest) = hex) as ->
    by apply take_append.
  rewrite Hv. simpl fst. simpl snd.
  assert ((String.length hex =? String.length (hex +:+ http_crlf +:+ rest))%nat = false)
    as -> by (apply Nat.eqb_neq; rewrite !length_append; simpl; lia).
  rewrite Nat.eqb_refl. simpl negb. cbv iota.
  assert (chunk_started p 0 = p) as ->.
  { unfold chunk_started. rewrite Z.add_0_r, (wrap_small _ Hr).
    rewrite <- Hz. by destruct p. }
  apply budget_check in Hbud. by rewrite Hbud.
Qed.

Lemma process_body_last_chunk_witness :
  (has_chunked (m_transfer_encoding (with_transfer_encoding [te_chunked] (new_parser 0)))
   = true /\
   Forall (fun c => c <> CR) (list_ascii_of_string "0") /\
   strtoul "0" 16 = (0, String.length "0") /\
   size_t_range (m_body_bytes_total (with_transfer_encoding [te_chunked] (new_parser 0))) /\
   within_budget (with_transfer_encoding [te_chunked] (new_parser 0))) /\
  process_body (with_transfer_encoding [te_chunked] (new_parser 0))
    ("0" +:+ http_crlf +:+ http_crlf +:+ "GET / HTTP/1.1") success
  = Some (size ("0" +:+ http_crlf +:+ http_crlf +:+ "GET / HTTP/1.1"),
          with_transfer_encoding [te_chunked] (new_parser 0), success).
Proof.
  assert (Forall (fun c => c <> CR) (list_ascii_of_string "0")) as Hhex
    by (repeat constructor; discriminate).
  assert (size_t_range 0) as Hr by (by compute).
  assert (within_budget (with_transfer_encoding [te_chunked] (new_parser 0))) as Hb
    by (by left).
  split; [by split_and! |].
  exact (process_body_last_chunk (with_transfer_encoding [te_chunked] (new_parser 0))
           "0" (http_crlf +:+ "GET / HTTP/1.1") success eq_refl eq_refl Hhex eq_refl Hr Hb).
Defined.

(** ** Header lines with a separator *)

Lemma search_after_token_name (name sep value : string) (c : ascii) (sep' : string) :
  token_name name -> sep = String c sep' -> is_token_char c = false ->
  search (name +:+ sep +:+ value) sep = String.length name.
Proof.
  intros Hname -> Hc. induction name as [|x t IH].
  - apply search_at_start. apply starts_with_split. eauto.
  - inversion Hname as [|? ? Hx Ht]; subst.
    change (search (String x t +:+ String c sep' +:+ value) (String c sep'))
      with (if starts_with (String c sep') (String x (t +:+ String c sep' +:+ value))
            then 0%nat else S (search (t +:+ String c sep' +:+ value) (String c sep'))).
    assert (starts_with (String c sep') (String x (t +:+ String c sep' +:+ value)) = false)
      as ->.
    { change (starts_with (String c sep') (String x (t +:+ String c sep' +:+ value)))
        with (if Ascii.eqb c x
              then starts_with sep' (t +:+ String c sep' +:+ value) else false).
      destruct (Ascii.eqb_spec c x); [congruence | done]. }
    by rewrite (IH Ht).
Qed.

Section Header_line_split.

Variable header_separator : string.
Variable strip_lws : string -> string.

Lemma process_header_at_separator
    (name value : string) (c : ascii) (sep' : string) (p : parser) :
  token_name name ->
  header_separator = String c sep' -> is_token_char c = false ->
  process_header header_separator strip_lws (name +:+ header_separator +:+ value) p
  = append_header (strip_lws name) (strip_lws value) p.
Proof.
  intros Hname Hsep Hc. unfold process_header.
  rewrite (search_after_token_name name header_separator value c sep' Hname Hsep Hc).
  assert ((String.length name =? String.length (name +:+ header_separator +:+ value))%nat
          = false) as ->.
  { apply Nat.eqb_neq. rewrite !length_append, Hsep. simpl. lia. }
  rewrite take_append, <- drop_drop, drop_append, drop_append. done.
Qed.

(** A header line is cut at the first separator.  When the separator starts
    with a character that no name can hold, such as a colon, a line made of
    a name of token characters, the separator and a value is handed to
    [append_header] as that name and that value, each through [strip_lws]; a
    separator inside the value stays in the value.  For a name that
    [strip_lws] leaves alone and that is not in the store yet, the header
    then reads as the stripped value. *)
Theorem process_header_splits_at_first_separator
    (name value : string) (c : ascii) (sep' : string) (p : parser) :
  token_name name ->
  header_separator = String c sep' -> is_token_char c = false ->
  process_header header_separator strip_lws (name +:+ header_separator +:+ value) p
  = append_header (strip_lws name) (strip_lws value) p /\
  (strip_lws name = name -> find (m_headers p) name = None ->
   exists p',
     process_header header_separator strip_lws (name +:+ header_separator +:+ value) p
     = (success, p') /\
     get_header p' name = strip_lws value).
Proof.
  intros Hname Hsep Hc.
  pose proof (process_header_at_separator name value c sep' p Hname Hsep Hc) as Hsplit.
  split; [exact Hsplit |].
  intros Hstrip Hf. rewrite Hsplit, Hstrip.
  rewrite append_header_first; [| done | by apply get_header_absent].
  eexists. split; [reflexivity |]. apply get_header_present. simpl. apply find_assign.
Qed.

End Header_line_split.

Lemma process_header_splits_at_first_separator_witness :
  (token_name "Host" /\ ": " = String ":" " " /\ is_token_char ":" = false /\
   find (m_headers (new_parser 0)) "Host" = None) /\
  process_header ": " (fun s => s) ("Host" +:+ ": " +:+ "a: b") (new_parser 0)
  = append_header "Host" "a: b" (new_parser 0) /\
  exists p',
    process_header ": " (fun s => s) ("Host" +:+ ": " +:+ "a: b") (new_parser 0)
    = (success, p') /\
    get_header p' "Host" = "a: b".
Proof.
  assert (token_name "Host") as Hk by (apply invalid_name_false; reflexivity).
  split; [by split_and! |].
  destruct (process_header_splits_at_first_separator ": " (fun s => s)
              "Host" "a: b" ":" " " (new_parser 0) Hk eq_refl eq_refl) as [H1 H2].
  split; [exact H1 | exact (H2 eq_refl eq_refl)].
Defined.

(** ** Content-Length through [strtoul] *)

Lemma strtoul_decimal_any (n : Z) :
  0 <= n ->
  strtoul (to_decimal n) 10
  = (if ULONG_MAX <? n then ULONG_MAX else n, String.length (to_decimal n)) /\
  strtoul (String "-" (to_decimal n)) 10
  = (if ULONG_MAX <? n then ULONG_MAX else wrap (- n), S (String.length (to_decimal n))).
Proof.
  intros Hlo. unfold to_decimal.
  set (d := N.to_uint (Z.to_N n)).
  assert (d <> Decimal.Nil) as Hd.
  { unfold d. destruct (Z.to_N n); [done | apply Unsigned.to_uint_nonnil]. }
  assert (NilZero.string_of_uint d = NilEmpty.string_of_uint d) as ->
    by (by destruct d).
  assert (uint_value d 0 = n) as Hv.
  { rewrite uint_value_of_uint. change (Pos.of_uint d) with (N.of_uint d).
    unfold d. rewrite DecimalN.Unsigned.of_to. lia. }
  assert (exists c t d0, NilEmpty.string_of_uint d = String c t
                         /\ digit_in_base 10 c = Some d0) as (c & t & d0 & Hs & Hc).
  { destruct d; [done | simpl; by eauto ..]. }
  pose proof (length_string_of_uint d) as Hl.
  assert (Decimal.nb_digits d <> 0%nat) as Hnb by (destruct d; simpl; [done | lia ..]).
  split.
  - pose proof (read_digits_decimal d 0 0) as Hr.
    rewrite Hs in Hr, Hl |- *. rewrite (strtoul_from_digit c t d0 Hc), Hr, Hv.
    simpl in Hl. rewrite <- Hl. simpl. done.
  - pose proof (read_digits_decimal d 0 1) as Hr.
    unfold strtoul. simpl skip_space.
    change (isspace "-") with false. cbv iota.
    unfold read_sign. change (Ascii.eqb "-" "-") with true. cbv iota.
    assert (read_prefix 10 (NilEmpty.string_of_uint d) 1
            = (NilEmpty.string_of_uint d, 1%nat)) as ->.
    { unfold read_prefix. by destruct (NilEmpty.string_of_uint d) as [|c0 [|cx [|dd tt]]]. }
    rewrite Hr, Hv, Hl.
    destruct (Nat.eqb_spec (1 + Decimal.nb_digits d) 1) as [Heq | _]; [lia |].
    done.
Qed.

Section Content_length_numbers.

Variable extract_parameters : string -> parameter_list -> nat * parameter_list.

(** The Content-Length value goes through [strtoul] unchecked for sign and
    range.  With no maximum configured, a minus sign in front of a decimal
    number [n] between 1 and [ULONG_MAX] is accepted, and the parser expects
    [2^64 - n] bytes; a decimal number above [ULONG_MAX] is accepted as
    [ULONG_MAX].  Neither is reported as an error. *)
Theorem content_length_sign_and_overflow (p p1 p2 : parser) (n : Z) :
  content_encoding_block extract_parameters p = Next p1 ->
  transfer_encoding_block extract_parameters p1 = Next p2 ->
  m_body_bytes_max p = 0 ->
  (0 < n <= ULONG_MAX ->
   get_header p Header_ContentLength = String "-" (to_decimal n) ->
   prepare_body extract_parameters p
   = (true, with_total (2 ^ SIZE_BITS - n) (with_needed (2 ^ SIZE_BITS - n) p2), success)) /\
  (ULONG_MAX < n ->
   get_header p Header_ContentLength = to_decimal n ->
   prepare_body extract_parameters p
   = (true, with_total ULONG_MAX (with_needed ULONG_MAX p2), success)).
Proof.
  intros H1 H2 Hmax.
  destruct (prepare_body_falls_through extract_parameters p p1 p2 H1 H2)
    as [-> (_ & Hh & _ & _ & _ & Hm)].
  assert (get_header p2 Header_ContentLength = get_header p Header_ContentLength) as Hg
    by (unfold get_header; by rewrite Hh).
  assert (forall h v,
            get_header p Header_ContentLength = h -> h <> EmptyString ->
            strtoul h 10 = (v, String.length h) -> v <> 0 ->
            content_length_block p2 = (true, with_total v (with_needed v p2), success))
    as Hcl.
  { intros h v Hget Hne Hst Hv. rewrite <- Hget, <- Hg in Hne.
    rewrite (content_length_block_present p2 Hne), Hg, Hget, Hst. simpl.
    rewrite Nat.eqb_refl, Hm, Hmax. simpl.
    apply Z.eqb_neq in Hv. by rewrite Hv. }
  split.
  - intros [Hlo Hhi] Hget.
    destruct (strtoul_decimal_any n ltac:(lia)) as [_ Hminus].
    destruct (Z.ltb_spec ULONG_MAX n); [lia |].
    assert (wrap (- n) = 2 ^ SIZE_BITS - n) as Hw.
    { unfold wrap. rewrite <- (Z.mod_small (2 ^ SIZE_BITS - n) (2 ^ SIZE_BITS))
        by (unfold ULONG_MAX in *; lia).
      replace (2 ^ SIZE_BITS - n) with (- n + 1 * 2 ^ SIZE_BITS) by lia.
      by rewrite Z.mod_add. }
    rewrite Hw in Hminus.
    apply (Hcl _ _ Hget); [done | exact Hminus | unfold ULONG_MAX in *; lia].
  - intros Hbig Hget.
    destruct (strtoul_decimal_any n ltac:(unfold ULONG_MAX in *; lia)) as [Hplain _].
    destruct (Z.ltb_spec ULONG_MAX n); [| lia].
    apply (Hcl _ _ Hget); [| exact Hplain | done].
    intros Hempty. rewrite Hempty in Hplain. discriminate.
Qed.

End Content_length_numbers.

Lemma content_length_sign_and_overflow_witness :
  (content_encoding_block ListGrammar.extract_parameters
     (with_header Header_ContentLength "-1" (new_parser 0))
   = Next (with_header Header_ContentLength "-1" (new_parser 0)) /\
   transfer_encoding_block ListGrammar.extract_parameters
     (with_header Header_ContentLength "-1" (new_parser 0))
   = Next (with_header Header_ContentLength "-1" (new_parser 0)) /\
   0 < 1 <= ULONG_MAX /\ ULONG_MAX < 99999999999999999999999) /\
  prepare_body ListGrammar.extract_parameters
    (with_header Header_ContentLength "-1" (new_parser 0))
  = (true,
     with_total (2 ^ SIZE_BITS - 1)
       (with_needed (2 ^ SIZE_BITS - 1)
          (with_header Header_ContentLength "-1" (new_parser 0))),
     success) /\
  prepare_body ListGrammar.extract_parameters
    (with_header Header_ContentLength "99999999999999999999999" (new_parser 0))
  = (true,
     with_total ULONG_MAX
       (with_needed ULONG_MAX
          (with_header Header_ContentLength "99999999999999999999999" (new_parser 0))),
     success).
Proof.
  set (p := with_header Header_ContentLength "-1" (new_parser 0)).
  set (q := with_header Header_ContentLength "99999999999999999999999" (new_parser 0)).
  assert (content_encoding_block ListGrammar.extract_parameters p = Next p) as H1
    by (vm_compute; reflexivity).
  assert (transfer_encoding_block ListGrammar.extract_parameters p = Next p) as H2
    by (vm_compute; reflexivity).
  assert (content_encoding_block ListGrammar.extract_parameters q = Next q) as G1
    by (vm_compute; reflexivity).
  assert (transfer_encoding_block ListGrammar.extract_parameters q = Next q) as G2
    by (vm_compute; reflexivity).
  assert (0 < 1 <= ULONG_MAX) as Hone by (by compute).
  assert (ULONG_MAX < 99999999999999999999999) as Hbig by (by compute).
  split; [by split_and! |]. split.
  - exact (proj1 (content_length_sign_and_overflow ListGrammar.extract_parameters
                    p p p 1 H1 H2 eq_refl) Hone eq_refl).
  - exact (proj2 (content_length_sign_and_overflow ListGrammar.extract_parameters
                    q q q 99999999999999999999999 G1 G2 eq_refl) Hbig eq_refl).
Defined.

(** ** Serialization and back *)

Lemma raw_headers_fold (l : list (string * string)) (acc : string) :
  fold_left
    (fun raw it => raw +:+ it.1 +:+ ": " +:+ it.2 +:+ String CR (String LF EmptyString))
    l acc
  = acc +:+ concat_all (map (fun it => header_line it +:+ http_crlf) l).
Proof.
  revert acc. induction l as [|it l IH]; intros acc; simpl.
  - by rewrite append_empty_r.
  - rewrite IH. unfold header_line, http_crlf. rewrite !append_assoc. simpl.
    by rewrite !append_assoc.
Qed.

Lemma walk_of_singleton (in_order : header_list -> list (string * string))
    (fk : string) (it : string * string) :
  walks_every_entry in_order -> in_order {[fk := it]} = [it].
Proof.
  intros Hwalk. specialize (Hwalk {[fk := it]}).
  rewrite map_to_list_singleton in Hwalk. simpl in Hwalk.
  by apply Permutation_singleton_r.
Qed.

(** A name is written the way it was first spelled.  On a new parser, a
    header stored under one spelling and then overwritten under another
    spelling of the same name (up to case) is one entry, and [raw_headers]
    writes it with the first spelling and the second value, followed by
    CRLF. *)
Theorem raw_headers_keeps_first_spelling
    (in_order : header_list -> list (string * string))
    (max : Z) (k k' v v' : string) :
  walks_every_entry in_order ->
  token_name k -> token_name k' -> fold_case k' = fold_case k ->
  exists p1 p2,
    replace_header k v (new_parser max) = (success, p1) /\
    replace_header k' v' p1 = (success, p2) /\
    raw_headers in_order p1 = k +:+ ": " +:+ v +:+ http_crlf /\
    raw_headers in_order p2 = k +:+ ": " +:+ v' +:+ http_crlf.
Proof.
  intros Hwalk Hk Hk' Hfold.
  apply invalid_name_false in Hk, Hk'.
  unfold replace_header. rewrite Hk. simpl. rewrite Hk'.
  do 2 eexists. split; [reflexivity |]. split; [reflexivity |].
  unfold raw_headers. simpl. unfold assign, subscript. simpl.
  rewrite Hfold, lookup_empty, lookup_insert_eq, insert_insert_eq, !insert_empty.
  simpl. rewrite !(walk_of_singleton in_order _ _ Hwalk). done.
Qed.

Lemma raw_headers_keeps_first_spelling_witness :
  (walks_every_entry (fun h : header_list => (map_to_list h).*2) /\
   token_name "Content-Type" /\ token_name "content-type" /\
   fold_case "content-type" = fold_case "Content-Type") /\
  exists p1 p2,
    replace_header "Content-Type" "text/html" (new_parser 0) = (success, p1) /\
    replace_header "content-type" "text/plain" p1 = (success, p2) /\
    raw_headers (fun h : header_list => (map_to_list h).*2) p1
    = "Content-Type" +:+ ": " +:+ "text/html" +:+ http_crlf /\
    raw_headers (fun h : header_list => (map_to_list h).*2) p2
    = "Content-Type" +:+ ": " +:+ "text/plain" +:+ http_crlf.
Proof.
  assert (walks_every_entry (fun h : header_list => (map_to_list h).*2)) as Hw
    by (intros h; reflexivity).
  assert (token_name "Content-Type") as H1 by (apply invalid_name_false; reflexivity).
  assert (token_name "content-type") as H2 by (apply invalid_name_false; reflexivity).
  split; [by split_and! |].
  exact (raw_headers_keeps_first_spelling _ 0 "Content-Type" "content-type"
           "text/html" "text/plain" Hw H1 H2 eq_refl).
Defined.

Section Round_trip.

Variable in_order : header_list -> list (string * string).
Variable header_separator : string.
Variable strip_lws : string -> string.

Lemma process_lines_inserts (gap : string) (c : ascii) (sep' : string)
    (its : list (string * string)) (q : parser) :
  header_separator = String c sep' -> is_token_char c = false ->
  ": " = header_separator +:+ gap ->
  NoDup (map (fun it => fold_case it.1) its) ->
  (forall it, it ∈ its ->
     token_name it.1 /\ strip_lws it.1 = it.1 /\ strip_lws (gap +:+ it.2) = it.2 /\
     m_headers q !! fold_case it.1 = None) ->
  exists q',
    process_lines header_separator strip_lws (map header_line its) q = (success, q') /\
    m_headers q'
    = list_to_map (map (fun it => (fold_case it.1, it)) its) ∪ m_headers q.
Proof.
  intros Hsep Hc Hgap. revert q.
  induction its as [|it its IH]; intros q Hnd Hall; simpl.
  - exists q. split; [done |]. by rewrite (left_id_L ∅ (∪)).
  - apply NoDup_cons in Hnd as [Hnotin Hnd].
    destruct (Hall it ltac:(apply list_elem_of_here)) as (Hk & Hsk & Hsv & Hq).
    assert (header_line it = it.1 +:+ header_separator +:+ (gap +:+ it.2)) as ->
      by (unfold header_line; by rewrite Hgap, append_assoc).
    rewrite (process_header_at_separator header_separator strip_lws
               it.1 (gap +:+ it.2) c sep' q Hk Hsep Hc), Hsk, Hsv.
    rewrite append_header_first;
      [| done | apply get_header_absent; unfold find; by rewrite Hq].
    simpl.
    set (q1 := with_headers (assign (m_headers q) it.1 it.2) q).
    assert (m_headers q1 = <[fold_case it.1 := it]> (m_headers q)) as Hq1.
    { simpl. unfold assign, subscript. rewrite Hq. simpl. by destruct it. }
    destruct (IH q1 Hnd) as (q' & Hrun & Hmap).
    { intros it' Hin. destruct (Hall it' ltac:(by apply list_elem_of_further))
        as (? & ? & ? & ?). split_and!; try done.
      rewrite Hq1, lookup_insert_ne; [done |].
      intros Heq. apply Hnotin. rewrite Heq.
      apply list_elem_of_fmap. by exists it'. }
    exists q'. split; [done |].
    rewrite Hmap, Hq1, <- insert_union_r, insert_union_l; [done |].
    apply not_elem_of_list_to_map_1. rewrite <- list_fmap_compose.
    exact Hnotin.
Qed.

(** Round trip.  When the separator is the colon of the lines that
    [raw_headers] writes, with or without the space after it, and
    [strip_lws] leaves the stored names alone and takes off what the
    separator left in front of a stored value, then handing the lines of
    [raw_headers], each without its CRLF, to [process_header] on a new parser
    rebuilds the header store: same names as first spelled, same values. *)
Theorem raw_headers_round_trip (gap : string) (c : ascii) (sep' : string)
    (p : parser) (max : Z) :
  walks_every_entry in_order ->
  header_separator = String c sep' -> is_token_char c = false ->
  ": " = header_separator +:+ gap ->
  names_valid p ->
  (forall fk k v, m_headers p !! fk = Some (k, v) ->
                  strip_lws k = k /\ strip_lws (gap +:+ v) = v) ->
  raw_headers in_order p
  = concat_all (map (fun it => header_line it +:+ http_crlf) (in_order (m_headers p))) /\
  exists p',
    process_lines header_separator strip_lws
      (map header_line (in_order (m_headers p))) (new_parser max) = (success, p') /\
    m_headers p' = m_headers p.
Proof.
  intros Hwalk Hsep Hc Hgap Hvalid Hstrip. split.
  { unfold raw_headers. by rewrite raw_headers_fold. }
  specialize (Hwalk (m_headers p)).
  assert (forall it, it ∈ in_order (m_headers p) ->
            m_headers p !! fold_case it.1 = Some it) as Hentry.
  { intros it Hin. rewrite Hwalk in Hin.
    apply list_elem_of_fmap in Hin as ([fk [k v]] & -> & Hin).
    apply elem_of_map_to_list in Hin. simpl.
    destruct (Hvalid _ _ _ Hin) as [-> _]. done. }
  assert ((fun it : string * string => (fold_case it.1, it)) <$> in_order (m_headers p)
          ≡ₚ map_to_list (m_headers p)) as Hperm.
  { rewrite Hwalk, <- list_fmap_compose.
    rewrite <- (list_fmap_id (map_to_list (m_headers p))) at 2.
    apply eq_subrelation; [apply _ |]. apply list_fmap_ext.
    intros i [fk [k v]] Hin. simpl.
    apply list_elem_of_lookup_2, elem_of_map_to_list in Hin.
    destruct (Hvalid _ _ _ Hin) as [-> _]. done. }
  assert (NoDup (map (fun it => fold_case it.1) (in_order (m_headers p)))) as Hnd.
  { assert (map (fun it => fold_case it.1) (in_order (m_headers p))
            = (map (fun it => (fold_case it.1, it)) (in_order (m_headers p))).*1) as ->
      by (by rewrite <- list_fmap_compose).
    rewrite Hperm. apply NoDup_fst_map_to_list. }
  destruct (process_lines_inserts gap c sep' (in_order (m_headers p)) (new_parser max)
              Hsep Hc Hgap Hnd) as (p' & Hrun & Hmap).
  { intros it Hin. pose proof (Hentry it Hin) as Hl. destruct it as [k v].
    destruct (Hvalid _ _ _ Hl) as [_ Hk]. destruct (Hstrip _ _ _ Hl) as [Hsk Hsv].
    split_and!; done. }
  exists p'. split; [done |].
  rewrite Hmap. simpl. rewrite (right_id_L ∅ (∪)).
  rewrite (list_to_map_proper _ (map_to_list (m_headers p))); [| | done].
  - apply list_to_map_to_list.
  - rewrite Hperm. apply NoDup_fst_map_to_list.
Qed.

End Round_trip.

Lemma raw_headers_round_trip_witness :
  (walks_every_entry (fun h : header_list => (map_to_list h).*2) /\
   is_token_char ":" = false /\ ": " = ":" +:+ " " /\
   names_valid (with_headers {[ "host" := ("Host", "a: b") ]} (new_parser 0))) /\
  raw_headers (fun h : header_list => (map_to_list h).*2)
    (with_headers {[ "host" := ("Host", "a: b") ]} (new_parser 0))
  = concat_all
      (map (fun it => header_line it +:+ http_crlf)
         (map_to_list ({[ "host" := ("Host", "a: b") ]} : header_list)).*2) /\
  exists p',
    process_lines ":"
      (fun s => match s with String " " r => r | _ => s end)
      (map header_line (map_to_list ({[ "host" := ("Host", "a: b") ]} : header_list)).*2)
      (new_parser 7)
    = (success, p') /\
    m_headers p' = {[ "host" := ("Host", "a: b") ]}.
Proof.
  assert (walks_every_entry (fun h : header_list => (map_to_list h).*2)) as Hw
    by (intros h; reflexivity).
  assert (forall fk k v,
            ({[ "host" := ("Host", "a: b") ]} : header_list) !! fk = Some (k, v) ->
            fk = "host" /\ k = "Host" /\ v = "a: b") as Hone.
  { intros fk k v Hl. apply lookup_singleton_Some in Hl as [<- Heq].
    by injection Heq as <- <-. }
  assert (names_valid (with_headers {[ "host" := ("Host", "a: b") ]} (new_parser 0)))
    as Hv.
  { intros fk k v Hl. destruct (Hone fk k v Hl) as (-> & -> & _).
    split; [reflexivity | apply invalid_name_false; reflexivity]. }
  split; [by split_and! |].
  refine (raw_headers_round_trip (fun h : header_list => (map_to_list h).*2) ":"
            (fun s => match s with String " " r => r | _ => s end)
            " " ":" EmptyString
            (with_headers {[ "host" := ("Host", "a: b") ]} (new_parser 0)) 7
            Hw eq_refl eq_refl eq_refl Hv _).
  intros fk k v Hl. destruct (Hone fk k v Hl) as (_ & -> & ->). by split.
Defined.
